(** * Movie recommender API: the recommendation-resolution pipeline

    A shallow embedding of [main.py]: title normalisation, the title index
    built at start-up, the title resolver, the TF-IDF similarity ranker, the
    best-effort enrichment call and the [/movie/search] handler with its
    fallback, followed by the properties stated for them.

    Python values are modelled as follows.
    - [int] is [Z]; [str] is [string], a character being a code point
      below 256; [list] is [list]; [Optional[T]] is [option T].
    - [float] is a type parameter: no property below depends on floating
      point arithmetic, only on the order of scores and on the constant 0.0.
    - A [dict] is an association list in insertion order without repeated
      keys (Python keeps insertion order, and [keys()] enumerates in it).
    - Exceptions are values of [exn]; a computation that may raise returns
      a [result]; a computation that also talks to the catalog service
      threads the number of HTTP calls made so far (monad [M]).
    - The libraries the code calls (numpy, scipy, difflib, httpx) are
      parameters, constrained by what their documentation promises. *)

From Stdlib Require Import List String Ascii ZArith NArith Bool Lia Arith.
From Stdlib Require Import Permutation Sorted DecimalString.
From Stdlib Require DecimalPos DecimalZ.
Import ListNotations.
Local Open Scope string_scope.
Local Open Scope Z_scope.

Set Implicit Arguments.

(** ** Exceptions and results *)

(** The exceptions the modelled code can raise.  All of them derive from
    Python's [Exception], so [except Exception] catches every one. *)
Inductive exn : Type :=
| HTTPException (status_code : Z) (detail : string)
| KeyError
| IndexError
| TypeError
| AttributeError
| ValidationError
| TransportError
| JSONDecodeError.

Inductive result (A : Type) : Type :=
| Ok (a : A)
| Raise (e : exn).
Arguments Ok {A} a.
Arguments Raise {A} e.

Definition rbind {A B} (r : result A) (k : A -> result B) : result B :=
  match r with
  | Ok a => k a
  | Raise e => Raise e
  end.

Declare Scope result_scope.
Delimit Scope result_scope with result.
Notation "x <- c ;; k" := (rbind c (fun x => k))
  (at level 61, c at next level, right associativity) : result_scope.

(** [try: r except Exception: h] *)
Definition try_except {A} (r : result A) (h : A) : A :=
  match r with
  | Ok a => a
  | Raise _ => h
  end.

Fixpoint rmap {A B} (f : A -> result B) (l : list A) : result (list B) :=
  match l with
  | [] => Ok []
  | a :: l' =>
      match f a with
      | Raise e => Raise e
      | Ok b => match rmap f l' with
                | Raise e => Raise e
                | Ok bs => Ok (b :: bs)
                end
      end
  end.

(** ** Python built-ins *)

(** [l[:n]] for an [int] [n]: a negative bound counts from the end. *)
Definition slice_to {A} (l : list A) (n : Z) : list A :=
  if 0 <=? n then firstn (Z.to_nat n) l
  else firstn (List.length l - Z.to_nat (- n))%nat l.

(** [str(n)] for an [int]. *)
Definition str_of_int (n : Z) : string := NilZero.string_of_int (Z.to_int n).

(** Truth value of a [str]: the empty string is false. *)
Definition str_truthy (s : string) : bool :=
  match s with
  | EmptyString => false
  | String _ _ => true
  end.

(** Characters [str.strip()] removes (code points below 256). *)
Definition isspace (c : ascii) : bool :=
  let n := N_of_ascii c in
  (((9 <=? n) && (n <=? 13)) || ((28 <=? n) && (n <=? 32))
   || (n =? 133) || (n =? 160))%N.

(** [str.lower()] on one character (code points below 256). *)
Definition lower_char (c : ascii) : ascii :=
  let n := N_of_ascii c in
  if (((65 <=? n) && (n <=? 90))
      || ((192 <=? n) && (n <=? 222) && negb (n =? 215)))%N
  then ascii_of_N (n + 32) else c.

Fixpoint lstrip (s : string) : string :=
  match s with
  | EmptyString => EmptyString
  | String c s' => if isspace c then lstrip s' else s
  end.

Fixpoint rstrip (s : string) : string :=
  match s with
  | EmptyString => EmptyString
  | String c s' =>
      match rstrip s' with
      | EmptyString => if isspace c then EmptyString else String c EmptyString
      | r => String c r
      end
  end.

Definition strip (s : string) : string := rstrip (lstrip s).

(** The string is empty or starts with a character that is not a blank. *)
Definition no_leading_space (s : string) : Prop :=
  match s with
  | EmptyString => True
  | String c _ => isspace c = false
  end.

Fixpoint lower (s : string) : string :=
  match s with
  | EmptyString => EmptyString
  | String c s' => String (lower_char c) (lower s')
  end.

(** ** Utilities of [main.py] *)

Definition _norm_title (t : string) : string := lower (strip t).

(** ** Dictionaries with [str] keys *)

Module Dict.
Definition t (V : Type) : Type := list (string * V).

Definition keys {V} (d : t V) : list string := map fst d.

Fixpoint get {V} (d : t V) (k : string) : option V :=
  match d with
  | [] => None
  | (k', v) :: d' => if String.eqb k' k then Some v else get d' k
  end.

(** [k in d] *)
Definition contains {V} (d : t V) (k : string) : bool :=
  match get d k with
  | Some _ => true
  | None => false
  end.

(** [d[k] = v]: an existing key keeps its position and takes the new
    value, a new key goes last. *)
Fixpoint set {V} (d : t V) (k : string) (v : V) : t V :=
  match d with
  | [] => [(k, v)]
  | (k', v') :: d' =>
      if String.eqb k' k then (k', v) :: d' else (k', v') :: set d' k v
  end.

(** [d[k]] *)
Definition getitem {V} (d : t V) (k : string) : result V :=
  match get d k with
  | Some v => Ok v
  | None => Raise KeyError
  end.
End Dict.

(** ** TF-IDF helpers: the title index *)

(** [{_norm_title(k): int(v) for k, v in indices.items()}]; [indices] is
    the pickled title-to-row series, given by its items in order. *)
Definition build_title_to_idx_map (indices : list (string * Z)) : Dict.t Z :=
  fold_left (fun d kv => Dict.set d (_norm_title (fst kv)) (snd kv)) indices [].

(** ** External libraries, as interfaces *)

(** Python floats, as far as the code uses them. *)
Class Float : Type := {
  float : Type;
  float_zero : float;                 (* the literal 0.0 *)
  float_neg : float -> float;         (* unary minus *)
  float_le : float -> float -> Prop   (* <= *)
}.

(** Negation reverses the order. *)
Class FloatLaws `{Float} : Prop := {
  float_neg_le : forall a b, float_le (float_neg a) (float_neg b) <-> float_le b a
}.

(** scipy sparse rows and numpy's [argsort] with its default [kind]. *)
Class Numpy `{Float} : Type := {
  vec : Type;                          (* one row of the TF-IDF matrix *)
  dot : vec -> vec -> float;           (* row @ qv.T *)
  argsort : list float -> list nat
}.

(** What [np.argsort] promises: the indices that would sort the array, in
    ascending order of the values.  The default kind (quicksort) is not a
    stable sort, so nothing is promised about ties. *)
Class NumpyLaws `{Numpy} : Prop := {
  argsort_perm : forall v, Permutation (argsort v) (seq 0 (List.length v));
  argsort_sorted : forall v,
    StronglySorted
      (fun i j => float_le (nth i v float_zero) (nth j v float_zero))
      (argsort v)
}.

(** [difflib]: [ratio_ge_cutoff x word] stands for
    [SequenceMatcher(None, x, word).ratio() >= 0.6], and
    [get_close_matches word possibilities] for the call with [n=1] and
    [cutoff=0.6]. *)
Class Difflib : Type := {
  ratio_ge_cutoff : string -> string -> bool;
  get_close_matches : string -> list string -> list string
}.

(** What [get_close_matches] promises: the matches are possibilities that
    score at least the cutoff, and there is one when some possibility does.
    The ratio of the empty string to a non-empty word is 0. *)
Class DifflibLaws `{Difflib} : Prop := {
  get_close_matches_sound : forall word ks x,
    In x (get_close_matches word ks) ->
    In x ks /\ ratio_ge_cutoff x word = true;
  get_close_matches_complete : forall word ks x,
    In x ks -> ratio_ge_cutoff x word = true ->
    get_close_matches word ks <> [];
  ratio_empty : forall word,
    ratio_ge_cutoff EmptyString word = true -> word = EmptyString
}.

(** ** JSON returned by the catalog service *)

(** A key of a JSON object: absent, [null], or a value of the type the
    catalog API documents for it. *)
Inductive field (A : Type) : Type :=
| Missing
| Null
| Val (a : A).
Arguments Missing {A}.
Arguments Null {A}.
Arguments Val {A} a.

(** [m[k]] *)
Definition getitem {A} (f : field A) : result (option A) :=
  match f with
  | Missing => Raise KeyError
  | Null => Ok None
  | Val a => Ok (Some a)
  end.

(** [m.get(k)] *)
Definition get {A} (f : field A) : option A :=
  match f with
  | Val a => Some a
  | _ => None
  end.

(** [m.get(k, default)] *)
Definition get_default {A} (f : field A) (default : A) : option A :=
  match f with
  | Missing => Some default
  | Null => None
  | Val a => Some a
  end.

Module Json.
(** An entry of [genres]. *)
Record genre : Type := {
  genre_id : field Z;
  genre_name : field string
}.

(** A movie object, seen through the keys the code reads; [other_keys]
    tells whether the object has a key besides these. *)
Record movie `{Float} : Type := {
  id : field Z;
  title : field string;
  poster_path : field string;
  backdrop_path : field string;
  release_date : field string;
  vote_average : field float;
  overview : field string;
  genres : field (list genre);
  other_keys : bool
}.

(** The key is not in the object. *)
Definition absent {A} (f : field A) : bool :=
  match f with
  | Missing => true
  | _ => false
  end.

(** The object is [{}], the one dict that is false as a Python value. *)
Definition empty `{Float} (m : movie) : bool :=
  absent (id m) && absent (title m) && absent (poster_path m) &&
  absent (backdrop_path m) && absent (release_date m) &&
  absent (vote_average m) && absent (overview m) && absent (genres m) &&
  negb (other_keys m).

(** A response body: the keys of a movie object and [results]. *)
Record body `{Float} : Type := {
  results : field (list movie);
  top : movie
}.
End Json.

(** ** httpx *)

(** Values of query parameters. *)
Inductive param : Type :=
| PStr (s : string)
| PInt (n : Z)
| PNone.

Record Response `{Float} : Type := {
  status_code : Z;
  json : option Json.body     (* [None]: the body is not JSON *)
}.

(** [client_get n url params] is what the [n]-th HTTP call of the process
    yields when it is a GET of [url] with [params]: a transport failure
    ([None]) or a response. *)
Class Httpx `{Float} : Type := {
  client_get : nat -> string -> Dict.t param -> option Response
}.

(** ** Computations that call the catalog service *)

Definition M (A : Type) : Type := nat -> result A * nat.

Definition ret {A} (a : A) : M A := fun n => (Ok a, n).

Definition raise {A} (e : exn) : M A := fun n => (Raise e, n).

Definition lift {A} (r : result A) : M A := fun n => (r, n).

Definition bind {A B} (m : M A) (k : A -> M B) : M B :=
  fun n =>
    match m n with
    | (Ok a, n') => k a n'
    | (Raise e, n') => (Raise e, n')
    end.

Declare Scope M_scope.
Delimit Scope M_scope with M.
Notation "x <- c ;; k" := (bind c (fun x => k))
  (at level 61, c at next level, right associativity) : M_scope.

(** [try: m except Exception: return h] *)
Definition try_except_M {A} (m : M A) (h : A) : M A :=
  fun n =>
    match m n with
    | (Ok a, n') => (Ok a, n')
    | (Raise _, n') => (Ok h, n')
    end.

(** A [for] loop that awaits [f] on each element and appends the result. *)
Fixpoint for_each {A B} (f : A -> M B) (l : list A) : M (list B) :=
  match l with
  | [] => ret []
  | a :: l' => (b <- f a ;; bs <- for_each f l' ;; ret (b :: bs))%M
  end.

(** ** Models *)

Module TMDBMovieCard.
Record t `{Float} : Type := {
  tmdb_id : Z;
  title : string;
  poster_url : option string;
  release_date : option string;
  vote_average : option float
}.
End TMDBMovieCard.

Module TMDBMovieDetails.
Record t : Type := {
  tmdb_id : Z;
  title : string;
  overview : option string;
  release_date : option string;
  poster_url : option string;
  backdrop_url : option string;
  genres : list Json.genre
}.
End TMDBMovieDetails.

Module TFIDFRecItem.
Record t `{Float} : Type := {
  title : string;
  score : float;
  tmdb : option TMDBMovieCard.t
}.
End TFIDFRecItem.

Module SearchBundleResponse.
Record t `{Float} : Type := {
  query : string;
  movie_details : TMDBMovieDetails.t;
  tfidf_recommendations : list TFIDFRecItem.t;
  genre_recommendations : list TMDBMovieCard.t
}.
End SearchBundleResponse.

(** Validation of a field that is not [Optional]: [None] is refused. *)
Definition required {A} (v : option A) : result A :=
  match v with
  | Some a => Ok a
  | None => Raise ValidationError
  end.

(** ** Module globals *)

(** [TMDB_API_KEY], read from the environment when the module is loaded. *)
Class Env : Type := {
  TMDB_API_KEY : string
}.

(** The three artefacts [load_pickles] sets at start-up; each is [None]
    until then.  [df] is given by its [title] column, [tfidf_matrix] by its
    rows. *)
Class Globals `{Numpy} : Type := {
  df : option (list string);
  tfidf_matrix : option (list vec);
  TITLE_TO_IDX : option (Dict.t Z)
}.

Definition TMDB_BASE : string := "https://api.themoviedb.org/3".
Definition TMDB_IMG_500 : string := "https://image.tmdb.org/t/p/w500".

Section Code.
Context {F : Float} {N : Numpy} {G : Globals} {E : Env} {X : Httpx}
        {D : Difflib}.

(** *** Utilities *)

Definition make_img_url (path : option string) : option string :=
  match path with
  | Some p => if str_truthy p then Some (TMDB_IMG_500 ++ p) else None
  | None => None
  end.

Definition tmdb_get (path : string) (params : Dict.t param) : M Json.body :=
  fun n =>
    let q := Dict.set params "api_key" (PStr TMDB_API_KEY) in
    match client_get n (TMDB_BASE ++ path) q with
    | None => (Raise TransportError, S n)
    | Some r =>
        if negb (status_code r =? 200) then
          (Raise (HTTPException 502 ("TMDB error " ++ str_of_int (status_code r))),
           S n)
        else
          match json r with
          | Some data => (Ok data, S n)
          | None => (Raise JSONDecodeError, S n)
          end
    end.

(** *** TMDB helpers *)

(** [int(m["id"])] *)
Definition int_of_id (v : option Z) : result Z :=
  match v with
  | Some n => Ok n
  | None => Raise TypeError
  end.

Definition tmdb_cards_from_results (results : option (list Json.movie))
    (limit : Z) : result (list TMDBMovieCard.t) :=
  rmap
    (fun m =>
       (v <- getitem (Json.id m) ;;
        tmdb_id <- int_of_id v ;;
        Ok {| TMDBMovieCard.tmdb_id := tmdb_id;
              TMDBMovieCard.title :=
                match get (Json.title m) with
                | Some s => if str_truthy s then s else ""
                | None => ""
                end;
              TMDBMovieCard.poster_url := make_img_url (get (Json.poster_path m));
              TMDBMovieCard.release_date := get (Json.release_date m);
              TMDBMovieCard.vote_average := get (Json.vote_average m) |})%result)
    (slice_to (match results with Some l => l | None => [] end) limit).

Definition str_of_movie_id (movie_id : option Z) : string :=
  match movie_id with
  | Some n => str_of_int n
  | None => "None"
  end.

Definition tmdb_movie_details (movie_id : option Z) : M TMDBMovieDetails.t :=
  (data <- tmdb_get ("/movie/" ++ str_of_movie_id movie_id)
                    [("language", PStr "en-US")] ;;
   lift
     (v <- getitem (Json.id (Json.top data)) ;;
      tmdb_id <- required v ;;
      title <- required (get (Json.title (Json.top data))) ;;
      genres <- required (get_default (Json.genres (Json.top data)) []) ;;
      Ok {| TMDBMovieDetails.tmdb_id := tmdb_id;
            TMDBMovieDetails.title := title;
            TMDBMovieDetails.overview := get (Json.overview (Json.top data));
            TMDBMovieDetails.release_date :=
              get (Json.release_date (Json.top data));
            TMDBMovieDetails.poster_url :=
              make_img_url (get (Json.poster_path (Json.top data)));
            TMDBMovieDetails.backdrop_url :=
              make_img_url (get (Json.backdrop_path (Json.top data)));
            TMDBMovieDetails.genres := genres |})%result)%M.

Definition tmdb_search_first (query : string) : M (option Json.movie) :=
  (data <- tmdb_get "/search/movie"
                    [("query", PStr query); ("language", PStr "en-US");
                     ("include_adult", PStr "false")] ;;
   ret match get (Json.results data) with
       | Some (m :: _) => Some m
       | _ => None
       end)%M.

(** *** TF-IDF helpers *)

Definition get_best_local_title (title : string) : result (option string) :=
  match TITLE_TO_IDX with
  | None => Raise AttributeError
  | Some d =>
      let matches := get_close_matches (_norm_title title) (Dict.keys d) in
      Ok match matches with
         | m :: _ => Some m
         | [] => None
         end
  end.

Definition get_local_idx_by_title (title : string) : result Z :=
  let key := _norm_title title in
  match TITLE_TO_IDX with
  | None => Raise TypeError
  | Some d =>
      if Dict.contains d key then Dict.getitem d key
      else
        (fuzzy <- get_best_local_title title ;;
         match fuzzy with
         | Some f =>
             if str_truthy f then Dict.getitem d f
             else Raise (HTTPException 404 "Title not in dataset")
         | None => Raise (HTTPException 404 "Title not in dataset")
         end)%result
  end.

(** [tfidf_matrix[idx]]: a negative row index counts from the end. *)
Definition getrow (m : list vec) (idx : Z) : result vec :=
  let n := Z.of_nat (List.length m) in
  let i := if idx <? 0 then idx + n else idx in
  if (0 <=? i) && (i <? n) then
    match nth_error m (Z.to_nat i) with
    | Some r => Ok r
    | None => Raise IndexError
    end
  else Raise IndexError.

(** [df.iloc[i]["title"]] *)
Definition iloc_title (i : nat) : result string :=
  match df with
  | None => Raise AttributeError
  | Some titles =>
      match nth_error titles i with
      | Some t => Ok t
      | None => Raise IndexError
      end
  end.

(** [float(scores[i])] *)
Definition score_at (scores : list float) (i : nat) : result float :=
  match nth_error scores i with
  | Some s => Ok s
  | None => Raise IndexError
  end.

(** The [for i in order] loop of [tfidf_recommend_titles]. *)
Fixpoint rank_loop (idx top_n : Z) (scores : list float) (order : list nat)
    (out : list (string * float)) : result (list (string * float)) :=
  match order with
  | [] => Ok out
  | i :: order' =>
      if Z.of_nat i =? idx then rank_loop idx top_n scores order' out
      else
        (t <- iloc_title i ;;
         s <- score_at scores i ;;
         let out := (out ++ [(t, s)])%list in
         if Z.of_nat (List.length out) >=? top_n then Ok out
         else rank_loop idx top_n scores order' out)%result
  end.

Definition tfidf_recommend_titles (title : string) (top_n : Z)
    : result (list (string * float)) :=
  (idx <- get_local_idx_by_title title ;;
   qv <- match tfidf_matrix with
         | None => Raise TypeError
         | Some m => getrow m idx
         end ;;
   let scores :=
     map (fun r => dot r qv)
         (match tfidf_matrix with Some m => m | None => [] end) in
   let order := argsort (map float_neg scores) in
   rank_loop idx top_n scores order [])%result.

(** [if not m] holds for [None] and for the empty object. *)
Definition attach_tmdb_card_by_title (title : string)
    : M (option TMDBMovieCard.t) :=
  try_except_M
    (m <- tmdb_search_first title ;;
     match m with
     | None => ret None
     | Some m =>
         if Json.empty m then ret None
         else
           lift
             (v <- getitem (Json.id m) ;;
              tmdb_id <- required v ;;
              title <- required (get (Json.title m)) ;;
              Ok (Some
                    {| TMDBMovieCard.tmdb_id := tmdb_id;
                       TMDBMovieCard.title := title;
                       TMDBMovieCard.poster_url :=
                         make_img_url (get (Json.poster_path m));
                       TMDBMovieCard.release_date := get (Json.release_date m);
                       TMDBMovieCard.vote_average :=
                         get (Json.vote_average m) |}))%result
     end)%M
    None.

(** *** Routes *)

Definition param_of_id (v : option Z) : param :=
  match v with
  | Some n => PInt n
  | None => PNone
  end.

(** [GET /movie/search].  [if not best] holds for [None] and for the
    empty object. *)
Definition search_bundle (query : string) (tfidf_top_n genre_limit : Z)
    : M SearchBundleResponse.t :=
  (best <- tmdb_search_first query ;;
   match best with
   | None => raise (HTTPException 404 "Movie not found")
   | Some best =>
       if Json.empty best then raise (HTTPException 404 "Movie not found")
       else
         (movie_id <- lift (getitem (Json.id best)) ;;
          details <- tmdb_movie_details movie_id ;;
          let recs :=
            try_except
              (tfidf_recommend_titles (TMDBMovieDetails.title details) tfidf_top_n)
              [] in
          tfidf_items <-
            for_each
              (fun ts =>
                 card <- attach_tmdb_card_by_title (fst ts) ;;
                 ret {| TFIDFRecItem.title := fst ts;
                        TFIDFRecItem.score := snd ts;
                        TFIDFRecItem.tmdb := card |})
              recs ;;
          genre_recs <-
            match TMDBMovieDetails.genres details with
            | [] => ret []
            | g :: _ =>
                gid <- lift (getitem (Json.genre_id g)) ;;
                d <- tmdb_get "/discover/movie"
                              [("with_genres", param_of_id gid);
                               ("sort_by", PStr "popularity.desc")] ;;
                lift (tmdb_cards_from_results
                        (get_default (Json.results d) []) genre_limit)
            end ;;
          let tfidf_items :=
            match tfidf_items, genre_recs with
            | [], _ :: _ =>
                map (fun c => {| TFIDFRecItem.title := TMDBMovieCard.title c;
                                 TFIDFRecItem.score := float_zero;
                                 TFIDFRecItem.tmdb := Some c |})
                    (slice_to genre_recs tfidf_top_n)
            | _, _ => tfidf_items
            end in
          ret {| SearchBundleResponse.query := query;
                 SearchBundleResponse.movie_details := details;
                 SearchBundleResponse.tfidf_recommendations := tfidf_items;
                 SearchBundleResponse.genre_recommendations := genre_recs |})
   end)%M.
End Code.

(** *** Start-up *)

(** [load_pickles], given the contents of the three pickle files. *)
Definition load_pickles {F : Float} {N : Numpy} (df_pkl : list string)
    (indices_pkl : list (string * Z)) (tfidf_matrix_pkl : list vec) : Globals :=
  {| df := Some df_pkl;
     tfidf_matrix := Some tfidf_matrix_pkl;
     TITLE_TO_IDX := Some (build_title_to_idx_map indices_pkl) |}.

(** The globals before start-up. *)
Definition not_loaded {F : Float} {N : Numpy} : Globals :=
  {| df := None; tfidf_matrix := None; TITLE_TO_IDX := None |}.

(** ** Vocabulary of the statements *)

Section Vocabulary.
Context {F : Float} {N : Numpy}.

(** The score vector of the query row [qv]. *)
Definition scores_of (m : list vec) (qv : vec) : list float :=
  map (fun r => dot r qv) m.

(** The output entry for row [i]. *)
Definition entry (titles : list string) (scores : list float) (i : nat)
    : string * float :=
  (nth i titles EmptyString, nth i scores float_zero).

(** The rows of [order] other than [idx]. *)
Definition others (idx : Z) (order : list nat) : list nat :=
  filter (fun i => negb (Z.of_nat i =? idx)) order.

(** How many rows the ranking loop takes once [m] entries are in [out]:
    it stops after an append that brings the length to [top_n] or more,
    so it appends at least once. *)
Definition quota (top_n : Z) (m : nat) : nat :=
  Z.to_nat (Z.max 1 (top_n - Z.of_nat m)).
End Vocabulary.

Section Steps.
Context {F : Float} {N : Numpy} {G : Globals} {E : Env} {X : Httpx}
        {D : Difflib}.

(** The similarity step of [search_bundle]: the ranker's answer, or the
    empty list when it raises. *)
Definition local_similarity (title : string) (tfidf_top_n : Z)
    : list (string * float) :=
  try_except (tfidf_recommend_titles title tfidf_top_n) [].

(** The enrichment loop of [search_bundle]. *)
Definition enrich (recs : list (string * float)) : M (list TFIDFRecItem.t) :=
  for_each
    (fun ts =>
       card <- attach_tmdb_card_by_title (fst ts) ;;
       ret {| TFIDFRecItem.title := fst ts;
              TFIDFRecItem.score := snd ts;
              TFIDFRecItem.tmdb := card |})%M
    recs.

(** The genre discovery step of [search_bundle]. *)
Definition genre_discovery (details : TMDBMovieDetails.t) (genre_limit : Z)
    : M (list TMDBMovieCard.t) :=
  match TMDBMovieDetails.genres details with
  | [] => ret []
  | g :: _ =>
      (gid <- lift (getitem (Json.genre_id g)) ;;
       d <- tmdb_get "/discover/movie"
                     [("with_genres", param_of_id gid);
                      ("sort_by", PStr "popularity.desc")] ;;
       lift (tmdb_cards_from_results
               (get_default (Json.results d) []) genre_limit))%M
  end.

(** The similarity item the fallback makes of a genre card. *)
Definition fallback_item (c : TMDBMovieCard.t) : TFIDFRecItem.t :=
  {| TFIDFRecItem.title := TMDBMovieCard.title c;
     TFIDFRecItem.score := float_zero;
     TFIDFRecItem.tmdb := Some c |}.

(** The fallback of [search_bundle]. *)
Definition fallback (tfidf_items : list TFIDFRecItem.t)
    (genre_recs : list TMDBMovieCard.t) (tfidf_top_n : Z)
    : list TFIDFRecItem.t :=
  match tfidf_items, genre_recs with
  | [], _ :: _ => map fallback_item (slice_to genre_recs tfidf_top_n)
  | _, _ => tfidf_items
  end.

(** The parameters [tmdb_get] sends for a search: those of
    [tmdb_search_first] and the key. *)
Definition search_params (query : string) : Dict.t param :=
  Dict.set [("query", PStr query); ("language", PStr "en-US");
            ("include_adult", PStr "false")]
           "api_key" (PStr TMDB_API_KEY).




(** The exception is [HTTPException] with status 404. *)
Definition not_found (e : exn) : bool :=
  match e with
  | HTTPException status _ => status =? 404
  | _ => false
  end.

End Steps.

(** ** The other routes of [main.py] *)

Section Routes.
Context {F : Float} {E : Env} {X : Httpx}.

(** [GET /home] *)
Definition home (category : string) (limit : Z) : M (list TMDBMovieCard.t) :=
  (data <- (if String.eqb category "trending"
            then tmdb_get "/trending/movie/day" [("language", PStr "en-US")]
            else tmdb_get ("/movie/" ++ category) [("language", PStr "en-US")]) ;;
   lift (tmdb_cards_from_results (get_default (Json.results data) []) limit))%M.

(** [GET /tmdb/search] *)
Definition tmdb_search (query : string) : M Json.body :=
  tmdb_get "/search/movie"
           [("query", PStr query); ("language", PStr "en-US");
            ("include_adult", PStr "false")].

(** [GET /movie/id/{tmdb_id}] *)
Definition movie_details_route (tmdb_id : Z) : M TMDBMovieDetails.t :=
  tmdb_movie_details (Some tmdb_id).
End Routes.

(** ** Vocabulary of the further statements *)

Section MoreVocabulary.
Context {F : Float} {E : Env} {X : Httpx}.

(** [results or []] *)
Definition or_empty {A} (results : option (list A)) : list A :=
  match results with
  | Some l => l
  | None => []
  end.

(** [m.get("title") or ""] *)
Definition title_or_empty (m : Json.movie) : string :=
  match get (Json.title m) with
  | Some s => if str_truthy s then s else ""
  | None => ""
  end.

(** The body of the comprehension of [tmdb_cards_from_results]. *)
Definition card_of_result (m : Json.movie) : result TMDBMovieCard.t :=
  (v <- getitem (Json.id m) ;;
   tmdb_id <- int_of_id v ;;
   Ok {| TMDBMovieCard.tmdb_id := tmdb_id;
         TMDBMovieCard.title :=
           match get (Json.title m) with
           | Some s => if str_truthy s then s else ""
           | None => ""
           end;
         TMDBMovieCard.poster_url := make_img_url (get (Json.poster_path m));
         TMDBMovieCard.release_date := get (Json.release_date m);
         TMDBMovieCard.vote_average := get (Json.vote_average m) |})%result.

(** The card [tmdb_cards_from_results] makes of a result with an [id]. *)
Definition shows (m : Json.movie) (c : TMDBMovieCard.t) : Prop :=
  Json.id m = Val (TMDBMovieCard.tmdb_id c) /\
  TMDBMovieCard.title c = title_or_empty m /\
  TMDBMovieCard.poster_url c = make_img_url (get (Json.poster_path m)) /\
  TMDBMovieCard.release_date c = get (Json.release_date m) /\
  TMDBMovieCard.vote_average c = get (Json.vote_average m).

(** The result carries an [id] that is not [null]. *)
Definition has_id (m : Json.movie) : Prop :=
  exists n, Json.id m = Val n.

(** The details [tmdb_movie_details] makes of a movie object. *)
Definition describes (m : Json.movie) (d : TMDBMovieDetails.t) : Prop :=
  Json.id m = Val (TMDBMovieDetails.tmdb_id d) /\
  Json.title m = Val (TMDBMovieDetails.title d) /\
  get_default (Json.genres m) [] = Some (TMDBMovieDetails.genres d) /\
  TMDBMovieDetails.overview d = get (Json.overview m) /\
  TMDBMovieDetails.release_date d = get (Json.release_date m) /\
  TMDBMovieDetails.poster_url d = make_img_url (get (Json.poster_path m)) /\
  TMDBMovieDetails.backdrop_url d = make_img_url (get (Json.backdrop_path m)).

(** The card [attach_tmdb_card_by_title] makes of a search result. *)
Definition enriches (m : Json.movie) (c : TMDBMovieCard.t) : Prop :=
  Json.id m = Val (TMDBMovieCard.tmdb_id c) /\
  Json.title m = Val (TMDBMovieCard.title c) /\
  TMDBMovieCard.poster_url c = make_img_url (get (Json.poster_path m)) /\
  TMDBMovieCard.release_date c = get (Json.release_date m) /\
  TMDBMovieCard.vote_average c = get (Json.vote_average m).

(** The catalog answers the [n]-th call, a GET of [path] with [params] and
    the key, with status 200 and the JSON body [data]. *)
Definition answers (n : nat) (path : string) (params : Dict.t param)
    (data : Json.body) : Prop :=
  exists r,
    client_get n (TMDB_BASE ++ path)
               (Dict.set params "api_key" (PStr TMDB_API_KEY)) = Some r /\
    status_code r = 200 /\
    json r = Some data.

(** The results of a body: [data.get("results", []) or []]. *)
Definition results_of (data : Json.body) : list Json.movie :=
  or_empty (get_default (Json.results data) []).

(** The path [home] asks the catalog for. *)
Definition home_path (category : string) : string :=
  if String.eqb category "trending" then "/trending/movie/day"
  else "/movie/" ++ category.

(** The parameters [tmdb_get] sends for [params]. *)
Definition with_key (params : Dict.t param) : Dict.t param :=
  Dict.set params "api_key" (PStr TMDB_API_KEY).
End MoreVocabulary.

(** ** The front end, [app.py]: from a bundle to the cards of a grid *)

Module App.
(** A card as the grids read it: a JSON object or a [dict] with the keys
    [tmdb_id], [title] and [poster_url]; other keys are not read. *)
Record card : Type := {
  tmdb_id : field Z;
  title : field string;
  poster_url : field string
}.

(** An item of [tfidf_recommendations] in the JSON of a bundle. *)
Record item `{Float} : Type := {
  item_title : field string;
  score : field float;
  tmdb : field card
}.

(** The empty [dict]. *)
Definition empty : card :=
  {| tmdb_id := Missing; title := Missing; poster_url := Missing |}.

(** Truth value of an [int] or [None]. *)
Definition int_truthy (v : option Z) : bool :=
  match v with
  | Some n => negb (n =? 0)
  | None => false
  end.

(** The value stored for [d.get(k)]: [None] is kept as a value. *)
Definition stored {A} (v : option A) : field A :=
  match v with
  | Some a => Val a
  | None => Null
  end.

Section Cards.
Context {F : Float}.

(** The [for x in items or []] loop of [tfidf_cards]. *)
Fixpoint tfidf_cards_loop (items : list item) (out : list card) : list card :=
  match items with
  | [] => out
  | x :: items' =>
      let tmdb := match get (tmdb x) with
                  | Some c => c
                  | None => empty
                  end in
      if int_truthy (get (tmdb_id tmdb)) then
        tfidf_cards_loop items'
          (out ++ [{| tmdb_id := tmdb_id tmdb;
                      title := stored (get (title tmdb));
                      poster_url := stored (get (poster_url tmdb)) |}])
      else tfidf_cards_loop items' out
  end.

Definition tfidf_cards (items : option (list item)) : list card :=
  tfidf_cards_loop (match items with Some l => l | None => [] end) [].

(** The JSON the API sends for a card and for a similarity item: every
    field is present, [None] as [null]. *)
Definition card_json (c : TMDBMovieCard.t) : card :=
  {| tmdb_id := Val (TMDBMovieCard.tmdb_id c);
     title := Val (TMDBMovieCard.title c);
     poster_url := stored (TMDBMovieCard.poster_url c) |}.

Definition item_json (x : TFIDFRecItem.t) : item :=
  {| item_title := Val (TFIDFRecItem.title x);
     score := Val (TFIDFRecItem.score x);
     tmdb := match TFIDFRecItem.tmdb x with
             | Some c => Val (card_json c)
             | None => Null
             end |}.

(** The item carries a card whose [tmdb_id] is an integer other than 0. *)
Definition enriched (x : item) : bool :=
  match get (tmdb x) with
  | Some c => int_truthy (get (tmdb_id c))
  | None => false
  end.

(** The cards the items of a bundle carry, in order. *)
Definition enrichments (items : list TFIDFRecItem.t) : list TMDBMovieCard.t :=
  flat_map (fun x => match TFIDFRecItem.tmdb x with
                     | Some c => [c]
                     | None => []
                     end) items.

(** The card has an id other than 0. *)
Definition has_nonzero_id (c : TMDBMovieCard.t) : bool :=
  negb (TMDBMovieCard.tmdb_id c =? 0).

(** The card [tfidf_cards] makes of an enriched item. *)
Definition card_of (x : item) : card :=
  match get (tmdb x) with
  | Some c => {| tmdb_id := tmdb_id c;
                 title := stored (get (title c));
                 poster_url := stored (get (poster_url c)) |}
  | None => empty
  end.
End Cards.
End App.

(** ** The front end, [app.py]: the grid of posters *)

(** Streamlit, as far as [poster_grid] uses it.  What the script shows is
    the sequence of its calls; calls made under [with col:] carry the
    position of [col] in its row. *)
Module St.
(** The HTML bodies [poster_grid] passes to [st.markdown]. *)
Inductive body : Type :=
| card_open                       (* <div class='card'> *)
| poster_img (src : string)       (* the poster wrapper with <img src=...> *)
| no_poster                       (* the poster wrapper saying "No poster" *)
| movie_title (title : string)    (* <div class='movie-title' ...> *)
| card_close.                     (* </div> *)

Inductive call : Type :=
| info (text : string)
| columns (spec : Z)
| markdown (col : nat) (html : body)
| button (col : nat) (label key : string).

(** The keys a sequence of calls has given to buttons. *)
Definition keys (trace : list call) : list string :=
  flat_map (fun c => match c with
                     | button _ _ key => [key]
                     | _ => []
                     end) trace.

(** [st.session_state] *)
Record session_state : Type := {
  view : string;
  selected_tmdb_id : option Z
}.

(** How a run of the script goes on after a function: it returned, it
    asked for a rerun with a new session state, or it raised. *)
Inductive ending : Type :=
| returned
| rerun (s : session_state)
| raised_ZeroDivisionError
| raised_StreamlitAPIException.
End St.

(** Streamlit during one run of the script: [st.columns(spec)] gives a
    number of columns or raises ([None]); [st_clicked key] tells whether
    the user clicked the button that has the key [key]. *)
Class Streamlit : Type := {
  st_columns : Z -> option nat;
  st_clicked : string -> bool
}.

(** [st.button(label, key=key)] after the calls made so far in the run:
    Streamlit refuses a key that a widget of the run already has and
    raises ([None]); otherwise the button tells whether it was clicked. *)
Definition st_button `{Streamlit} (trace : list St.call) (key : string)
    : option bool :=
  if existsb (String.eqb key) (St.keys trace) then None
  else Some (st_clicked key).

(** [st.columns(n)] gives [n] columns for a positive integer [n]. *)
Class StreamlitLaws `{Streamlit} : Prop := {
  st_columns_positive : forall n, 1 <= n -> st_columns n = Some (Z.to_nat n)
}.

Module Grid.
Section Grid.
Context {UI : Streamlit}.

(** [goto_details(tmdb_id)] *)
Definition goto_details (tmdb_id : Z) : St.ending :=
  St.rerun {| St.view := "details"; St.selected_tmdb_id := Some tmdb_id |}.

(** [goto_home()] *)
Definition goto_home : St.ending :=
  St.rerun {| St.view := "home"; St.selected_tmdb_id := None |}.

(** [m.get("title", "Untitled")] as the f-string shows it. *)
Definition title_text (m : App.card) : string :=
  match App.title m with
  | Missing => "Untitled"
  | Null => "None"
  | Val s => s
  end.

(** The poster markdown of a card. *)
Definition poster_body (m : App.card) : St.body :=
  match get (App.poster_url m) with
  | Some p => if str_truthy p then St.poster_img p else St.no_poster
  | None => St.no_poster
  end.

(** The key of the button of a card. *)
Definition button_key (key_prefix : string) (tmdb_id : Z) : string :=
  key_prefix ++ "_" ++ str_of_int tmdb_id.

(** The body of the inner loop for the card [m] in column [col]: the
    ending, if the function stops there, and the calls made so far. *)
Definition cell (key_prefix : string) (col : nat) (m : App.card)
    (trace : list St.call) : option St.ending * list St.call :=
  let trace :=
    (trace ++ [St.markdown col St.card_open;
               St.markdown col (poster_body m);
               St.markdown col (St.movie_title (title_text m))])%list in
  match get (App.tmdb_id m) with
  | Some tmdb_id =>
      if negb (tmdb_id =? 0) then
        match st_button trace (button_key key_prefix tmdb_id) with
        | None => (Some St.raised_StreamlitAPIException, trace)
        | Some clicked =>
            let trace :=
              (trace ++ [St.button col "View details"
                                   (button_key key_prefix tmdb_id)])%list in
            if clicked then (Some (goto_details tmdb_id), trace)
            else (None, (trace ++ [St.markdown col St.card_close])%list)
        end
      else (None, (trace ++ [St.markdown col St.card_close])%list)
  | None => (None, (trace ++ [St.markdown col St.card_close])%list)
  end.

(** [for col in colset]: [left] columns remain, the next one is [col];
    [rest] is [cards[idx:]].  The loop ends the function ([inl]) or leaves
    the cards not yet shown ([inr]). *)
Fixpoint row_loop (key_prefix : string) (left col : nat) (rest : list App.card)
    (trace : list St.call)
    : (St.ending + list App.card) * list St.call :=
  match left with
  | O => (inr rest, trace)
  | S left' =>
      match rest with
      | [] => (inl St.returned, trace)
      | m :: rest' =>
          match cell key_prefix col m trace with
          | (Some e, trace') => (inl e, trace')
          | (None, trace') => row_loop key_prefix left' (S col) rest' trace'
          end
      end
  end.

(** [for _ in range(rows)] *)
Fixpoint rows_loop (key_prefix : string) (rows : nat) (cols : Z)
    (rest : list App.card) (trace : list St.call) : St.ending * list St.call :=
  match rows with
  | O => (St.returned, trace)
  | S rows' =>
      match st_columns cols with
      | None => (St.raised_StreamlitAPIException, trace)
      | Some k =>
          match row_loop key_prefix k 0 rest (trace ++ [St.columns cols])%list with
          | (inl e, trace') => (e, trace')
          | (inr rest', trace') => rows_loop key_prefix rows' cols rest' trace'
          end
      end
  end.

Definition poster_grid (cards : option (list App.card)) (cols : Z)
    (key_prefix : string) (trace : list St.call) : St.ending * list St.call :=
  match cards with
  | None | Some [] => (St.returned, (trace ++ [St.info "No movies found."])%list)
  | Some cards =>
      if cols =? 0 then (St.raised_ZeroDivisionError, trace)
      else
        let rows := (Z.of_nat (List.length cards) + cols - 1) / cols in
        rows_loop key_prefix (Z.to_nat rows) cols cards trace
  end.

(** The same walk told card by card: the card at position [k] goes to
    column [k mod cols], and a row of columns is opened before each card
    whose position is a multiple of [cols]. *)
Fixpoint by_position (key_prefix : string) (cols : nat) (k : nat)
    (rest : list App.card) (trace : list St.call) : St.ending * list St.call :=
  match rest with
  | [] => (St.returned, trace)
  | m :: rest' =>
      let trace :=
        if (k mod cols =? 0)%nat then (trace ++ [St.columns (Z.of_nat cols)])%list
        else trace in
      match cell key_prefix (k mod cols) m trace with
      | (Some e, trace') => (e, trace')
      | (None, trace') => by_position key_prefix cols (S k) rest' trace'
      end
  end.

(** The calls that show the card [m] in column [col] when its button, if
    it has one, is not clicked. *)
Definition shown (key_prefix : string) (col : nat) (m : App.card)
    : list St.call :=
  [St.markdown col St.card_open;
   St.markdown col (poster_body m);
   St.markdown col (St.movie_title (title_text m))]
  ++ (if App.int_truthy (get (App.tmdb_id m))
      then match get (App.tmdb_id m) with
           | Some tmdb_id =>
               [St.button col "View details" (button_key key_prefix tmdb_id)]
           | None => []
           end
      else [])
  ++ [St.markdown col St.card_close].

(** The calls of a whole grid without a click, from position [k] on. *)
Fixpoint layout (key_prefix : string) (cols : nat) (k : nat)
    (cards : list App.card) : list St.call :=
  match cards with
  | [] => []
  | m :: rest =>
      ((if (k mod cols =? 0)%nat then [St.columns (Z.of_nat cols)] else [])
       ++ shown key_prefix (k mod cols) m
       ++ layout key_prefix cols (S k) rest)%list
  end.

(** The ids of the cards that get a button, in order: those with a
    [tmdb_id] other than 0. *)
Definition ids (cards : list App.card) : list Z :=
  flat_map (fun m => match get (App.tmdb_id m) with
                     | Some tmdb_id => if negb (tmdb_id =? 0) then [tmdb_id] else []
                     | None => []
                     end) cards.

(** The titles shown by a sequence of calls, in order. *)
Definition titles_shown (trace : list St.call) : list string :=
  flat_map (fun c => match c with
                     | St.markdown _ (St.movie_title t) => [t]
                     | _ => []
                     end) trace.

(** The number of rows of columns opened by a sequence of calls. *)
Definition rows_opened (trace : list St.call) : nat :=
  List.length (filter (fun c => match c with
                                | St.columns _ => true
                                | _ => false
                                end) trace).
End Grid.
End Grid.

(** * A concrete setting

    Instances of the interfaces above, with integer scores, a small loaded
    index and a scripted catalog service.  The statements that come with
    hypotheses are run on them. *)

Module Scenario.
(** Scores are integers. *)
Definition ZFloat : Float :=
  {| float := Z; float_zero := 0; float_neg := Z.opp; float_le := Z.le |}.

(** Insertion of the index [i] in a list of indices sorted by their value
    in [v]: before the first index of greater value, or, with
    [ties_first], before the first index of greater or equal value. *)
Fixpoint insert_index (ties_first : bool) (v : list Z) (i : nat)
    (l : list nat) : list nat :=
  match l with
  | [] => [i]
  | j :: l' =>
      if (if ties_first then nth i v 0 <=? nth j v 0 else nth i v 0 <? nth j v 0)
      then i :: l
      else j :: insert_index ties_first v i l'
  end.

(** An insertion sort of the indices [0 .. len(v) - 1].  Without
    [ties_first] it is stable; with it, equal values come out in
    descending index order. *)
Definition argsort_by (ties_first : bool) (v : list Z) : list nat :=
  fold_left (fun l i => insert_index ties_first v i l)
            (seq 0 (List.length v)) [].

Definition dotZ (a b : list Z) : Z :=
  fold_right Z.add 0 (map (fun p => fst p * snd p) (combine a b)).

Definition StableNumpy : @Numpy ZFloat :=
  @Build_Numpy ZFloat (list Z) dotZ (argsort_by false).

(** Length of a longest common subsequence. *)
Fixpoint lcs (a b : list ascii) {struct a} : nat :=
  match a with
  | [] => 0%nat
  | x :: a' =>
      (fix scan (b : list ascii) : nat :=
         match b with
         | [] => 0%nat
         | y :: b' =>
             if Ascii.eqb x y then S (lcs a' b')
             else Nat.max (lcs a' b) (scan b')
         end) b
  end.

(** Twice the matched characters over the total length, compared with
    0.6; two empty strings have ratio 1. *)
Definition ratio_ge (x word : string) : bool :=
  (3 * (String.length x + String.length word) <=?
   10 * lcs (list_ascii_of_string x) (list_ascii_of_string word))%nat.

Definition matches_num (x word : string) : nat :=
  (2 * lcs (list_ascii_of_string x) (list_ascii_of_string word))%nat.

Definition matches_den (x word : string) : nat :=
  (String.length x + String.length word)%nat.

(** The better of two possibilities, the earlier one on equal ratios. *)
Definition better (word a b : string) : string :=
  if (matches_num a word * matches_den b word <?
      matches_num b word * matches_den a word)%nat
  then b else a.

(** The best possibility among those that reach the cutoff, if any. *)
Definition best_match (word : string) (ks : list string) : list string :=
  match filter (fun x => ratio_ge x word) ks with
  | [] => []
  | x :: l => [fold_left (better word) l x]
  end.

Definition LcsDifflib : Difflib :=
  {| ratio_ge_cutoff := ratio_ge; get_close_matches := best_match |}.

Definition TheEnv : Env := {| TMDB_API_KEY := "secret" |}.

(** The loaded index: four movies. *)
Definition titles : list string := ["The Avengers"; "Iron Man"; "Thor"; "Heat"].

Definition indices : list (string * Z) :=
  [("The Avengers", 0); ("Iron Man", 1); ("Thor", 2); ("Heat", 3)].

Definition matrix : list (list Z) :=
  [[2; 1; 0]; [2; 0; 1]; [1; 1; 0]; [0; 0; 1]].

Definition Loaded : @Globals ZFloat StableNumpy :=
  load_pickles (N := StableNumpy) titles indices matrix.

(** A movie object with [id] and [title]. *)
Definition movie (id : Z) (title : string) : @Json.movie ZFloat :=
  {| Json.id := Val id; Json.title := Val title;
     Json.poster_path := Missing; Json.backdrop_path := Missing;
     Json.release_date := Missing; Json.vote_average := Missing;
     Json.overview := Missing; Json.genres := Missing;
     Json.other_keys := false |}.

(** The empty object. *)
Definition no_fields : @Json.movie ZFloat :=
  {| Json.id := Missing; Json.title := Missing;
     Json.poster_path := Missing; Json.backdrop_path := Missing;
     Json.release_date := Missing; Json.vote_average := Missing;
     Json.overview := Missing; Json.genres := Missing;
     Json.other_keys := false |}.


Definition ok_results (l : list Json.movie) : option (@Response ZFloat) :=
  Some {| status_code := 200;
          json := Some {| Json.results := Val l; Json.top := no_fields |} |}.

Definition ok_details (id : Z) (title : string) (genres : list Json.genre)
    : option (@Response ZFloat) :=
  Some {| status_code := 200;
          json := Some {| Json.results := Missing;
                          Json.top :=
                            {| Json.id := Val id; Json.title := Val title;
                               Json.poster_path := Val "/p.jpg";
                               Json.backdrop_path := Null;
                               Json.release_date := Missing;
                               Json.vote_average := Missing;
                               Json.overview := Missing;
                               Json.genres := Val genres;
                               Json.other_keys := false |} |} |}.

Definition query_is (params : Dict.t param) (q : string) : bool :=
  match Dict.get params "query" with
  | Some (PStr s) => String.eqb s q
  | _ => false
  end.

(** The scripted catalog service: it knows "Avngers" as The Avengers and
    "Solaris"; searching "Thor" fails in transport, searching "Heat"
    answers 500 and searching "Iron Man" gives a result without title;
    any other search has no result. *)
Definition catalog (n : nat) (url : string) (params : Dict.t param)
    : option (@Response ZFloat) :=
  if String.eqb url (TMDB_BASE ++ "/search/movie") then
    if query_is params "Avngers" then ok_results [movie 24428 "The Avengers"]
    else if query_is params "Solaris" then ok_results [movie 593 "Solaris"]
    else if query_is params "Thor" then None
    else if query_is params "Heat" then Some {| status_code := 500; json := None |}
    else if query_is params "Iron Man" then
      ok_results [{| Json.id := Val 1726; Json.title := Null;
                     Json.poster_path := Missing; Json.backdrop_path := Missing;
                     Json.release_date := Missing; Json.vote_average := Missing;
                     Json.overview := Missing; Json.genres := Missing;
                     Json.other_keys := false |}]
    else ok_results []
  else if String.eqb url (TMDB_BASE ++ "/movie/24428") then
    ok_details 24428 "The Avengers"
               [{| Json.genre_id := Val 28; Json.genre_name := Val "Action" |}]
  else if String.eqb url (TMDB_BASE ++ "/movie/593") then
    ok_details 593 "Solaris"
               [{| Json.genre_id := Val 878;
                   Json.genre_name := Val "Science Fiction" |}]
  else if String.eqb url (TMDB_BASE ++ "/discover/movie") then
    ok_results [movie 1 "Mad Max"; movie 2 "John Wick"; movie 3 "Die Hard"]
  else Some {| status_code := 404; json := None |}.

Definition Catalog : @Httpx ZFloat := {| client_get := catalog |}.




End Scenario.

(** A second catalog service: it lists trending movies and fails on genre
    discovery; otherwise it answers as the first one. *)
Module ScenarioMore.
Import Scenario.

Definition catalog2 (n : nat) (url : string) (params : Dict.t param)
    : option (@Response ZFloat) :=
  if String.eqb url (TMDB_BASE ++ "/discover/movie") then
    Some {| status_code := 500; json := None |}
  else if String.eqb url (TMDB_BASE ++ "/trending/movie/day") then
    ok_results [movie 1 "Mad Max"; movie 2 "John Wick"; movie 3 "Die Hard"]
  else catalog n url params.

Definition Catalog2 : @Httpx ZFloat := {| client_get := catalog2 |}.

(** Pickled titles of which two share a normal form. *)
Definition colliding : list (string * Z) :=
  [("Heat", 0); ("HEAT", 1); ("Alien", 2)].
End ScenarioMore.

(** Two Streamlit front ends: in the first no button is clicked, in the
    second the button with the key [clicked] is. *)
Module ScenarioUI.
Definition columns_of (n : Z) : option nat :=
  if 1 <=? n then Some (Z.to_nat n) else None.

Definition Quiet : Streamlit :=
  {| st_columns := columns_of; st_clicked := fun _ => false |}.

Definition Click (clicked : string) : Streamlit :=
  {| st_columns := columns_of; st_clicked := String.eqb clicked |}.

Definition card (tmdb_id : Z) (title : string) : App.card :=
  {| App.tmdb_id := Val tmdb_id; App.title := Val title;
     App.poster_url := Null |}.

Definition three : list App.card :=
  [card 1 "Mad Max"; card 2 "John Wick"; card 3 "Die Hard"].

(** Three cards of which the third repeats the id of the first. *)
Definition repeated : list App.card :=
  [card 7 "Heat"; card 2 "John Wick"; card 7 "Heat (1995)"].
End ScenarioUI.

(** * Properties *)

(** ** Title normalisation *)

Lemma lower_char_idempotent (c : ascii) : lower_char (lower_char c) = lower_char c.
Proof. destruct c as [[] [] [] [] [] [] [] []]; reflexivity. Qed.

Lemma isspace_lower_char (c : ascii) : isspace (lower_char c) = isspace c.
Proof. destruct c as [[] [] [] [] [] [] [] []]; reflexivity. Qed.

Lemma lower_idempotent (s : string) : lower (lower s) = lower s.
Proof.
  induction s as [|c s IH]; simpl; [reflexivity|].
  now rewrite lower_char_idempotent, IH.
Qed.

Lemma lstrip_lower (s : string) : lstrip (lower s) = lower (lstrip s).
Proof.
  induction s as [|c s IH]; simpl; [reflexivity|].
  rewrite isspace_lower_char. now destruct (isspace c).
Qed.

Lemma rstrip_lower (s : string) : rstrip (lower s) = lower (rstrip s).
Proof.
  induction s as [|c s IH]; simpl; [reflexivity|].
  rewrite IH, isspace_lower_char.
  destruct (rstrip s); simpl; [now destruct (isspace c) | reflexivity].
Qed.

Lemma rstrip_idempotent (s : string) : rstrip (rstrip s) = rstrip s.
Proof.
  induction s as [|c s IH]; simpl; [reflexivity|].
  destruct (rstrip s) as [|c' r] eqn:E.
  - destruct (isspace c) eqn:Ec; simpl; [reflexivity | now rewrite Ec].
  - change (rstrip (String c (String c' r))) with
      (match rstrip (String c' r) with
       | EmptyString => if isspace c then EmptyString else String c EmptyString
       | r0 => String c r0
       end).
    now rewrite IH.
Qed.

Lemma lstrip_no_leading_space (s : string) : no_leading_space (lstrip s).
Proof.
  induction s as [|c s IH]; simpl; [exact I|].
  destruct (isspace c) eqn:E; [exact IH | exact E].
Qed.

Lemma rstrip_no_leading_space (s : string) :
  no_leading_space s -> no_leading_space (rstrip s).
Proof.
  destruct s as [|c s]; simpl; [auto|]. intros Hc.
  destruct (rstrip s); simpl; [now rewrite Hc | exact Hc].
Qed.

Lemma lstrip_fixed (s : string) : no_leading_space s -> lstrip s = s.
Proof. destruct s as [|c s]; simpl; [auto|]. now intros ->. Qed.

Lemma strip_idempotent (s : string) : strip (strip s) = strip s.
Proof.
  unfold strip.
  rewrite (lstrip_fixed (rstrip (lstrip s)))
    by apply rstrip_no_leading_space, lstrip_no_leading_space.
  apply rstrip_idempotent.
Qed.

Lemma strip_lower (s : string) : strip (lower s) = lower (strip s).
Proof. unfold strip. now rewrite lstrip_lower, rstrip_lower. Qed.

Lemma _norm_title_idempotent (t : string) :
  _norm_title (_norm_title t) = _norm_title t.
Proof.
  unfold _norm_title.
  now rewrite strip_lower, lower_idempotent, strip_idempotent.
Qed.

(** ** Dictionaries *)

Module DictFacts.
Import Dict.

Lemma get_set_same {V} (d : t V) k v : get (set d k v) k = Some v.
Proof.
  induction d as [|[k' v'] d IH]; simpl.
  - now rewrite String.eqb_refl.
  - destruct (String.eqb k' k) eqn:E; simpl; rewrite E; auto.
Qed.

Lemma get_set_other {V} (d : t V) k v x :
  x <> k -> get (set d k v) x = get d x.
Proof.
  intros Hx. induction d as [|[k' v'] d IH]; simpl.
  - destruct (String.eqb_spec k x); congruence.
  - destruct (String.eqb_spec k' k) as [->|Hk]; simpl.
    + destruct (String.eqb_spec k x); congruence.
    + now rewrite IH.
Qed.

Lemma keys_set {V} (d : t V) k v x :
  In x (keys (set d k v)) <-> x = k \/ In x (keys d).
Proof.
  unfold keys. induction d as [|[k' v'] d IH]; simpl.
  - intuition.
  - destruct (String.eqb_spec k' k) as [->|Hk]; simpl.
    + intuition.
    + rewrite IH. intuition.
Qed.

Lemma NoDup_keys_set {V} (d : t V) k v :
  NoDup (keys d) -> NoDup (keys (set d k v)).
Proof.
  induction d as [|[k' v'] d IH]; simpl; intros ND.
  - constructor; [intros [] | constructor].
  - inversion ND as [|? ? Hnin ND']; subst.
    destruct (String.eqb_spec k' k) as [->|Hk]; simpl.
    + now constructor.
    + constructor; [|now apply IH].
      change (~ In k' (keys (set d k v))).
      rewrite keys_set. intros [->|Hin]; [congruence|].
      now apply Hnin.
Qed.

Lemma get_Some_keys {V} (d : t V) k : In k (keys d) <-> exists v, get d k = Some v.
Proof.
  induction d as [|[k' v'] d IH]; simpl.
  - split; [intros [] | intros [v Hv]; discriminate].
  - destruct (String.eqb_spec k' k) as [->|Hk].
    + split; eauto.
    + rewrite <- IH. intuition.
Qed.

Lemma contains_keys {V} (d : t V) k : contains d k = true <-> In k (keys d).
Proof.
  rewrite get_Some_keys. unfold contains.
  destruct (get d k); split; intros Hx; eauto; try discriminate.
  now destruct Hx.
Qed.
End DictFacts.

(** ** The title index *)

Section TitleIndex.
Let step (d : Dict.t Z) (kv : string * Z) : Dict.t Z :=
  Dict.set d (_norm_title (fst kv)) (snd kv).

Lemma fold_step_NoDup (l : list (string * Z)) (d : Dict.t Z) :
  NoDup (Dict.keys d) -> NoDup (Dict.keys (fold_left step l d)).
Proof.
  revert d. induction l as [|kv l IH]; simpl; intros d ND; auto.
  apply IH. now apply DictFacts.NoDup_keys_set.
Qed.

Lemma fold_step_keys (l : list (string * Z)) (d : Dict.t Z) (x : string) :
  In x (Dict.keys (fold_left step l d)) <->
  In x (Dict.keys d) \/ exists k v, In (k, v) l /\ _norm_title k = x.
Proof.
  revert d. induction l as [|[k v] l IH]; simpl; intros d.
  - split; [auto | intros [Hd|(k & v & [] & _)]; auto].
  - rewrite IH. change (step d (k, v)) with (Dict.set d (_norm_title k) v).
    rewrite DictFacts.keys_set.
    split.
    + intros [[->|Hd]|(k' & v' & Hin & Hx)]; eauto 6.
    + intros [Hd|(k' & v' & [Heq|Hin] & Hx)]; eauto 6.
      inversion Heq; subst. auto.
Qed.

Lemma fold_step_get_other (l : list (string * Z)) (d : Dict.t Z) (x : string) :
  (forall k v, In (k, v) l -> _norm_title k <> x) ->
  Dict.get (fold_left step l d) x = Dict.get d x.
Proof.
  revert d. induction l as [|[k v] l IH]; simpl; intros d Hl; auto.
  rewrite IH by eauto. unfold step. simpl.
  apply DictFacts.get_set_other. intros ->. now apply (Hl k v); auto.
Qed.

Lemma fold_step_get_last (before after : list (string * Z)) k v d :
  (forall k' v', In (k', v') after -> _norm_title k' <> _norm_title k) ->
  Dict.get (fold_left step (before ++ (k, v) :: after) d) (_norm_title k) = Some v.
Proof.
  intros Hafter. rewrite fold_left_app. simpl.
  rewrite fold_step_get_other by assumption.
  unfold step at 1. simpl. apply DictFacts.get_set_same.
Qed.

Lemma build_title_to_idx_map_keys_normal (indices : list (string * Z)) (x : string) :
  In x (Dict.keys (build_title_to_idx_map indices)) -> _norm_title x = x.
Proof.
  unfold build_title_to_idx_map. fold step. rewrite fold_step_keys.
  intros [[]|(k & v & _ & <-)]. apply _norm_title_idempotent.
Qed.

(** C9. The title index has no repeated key, its keys are the normalised
    source titles, and a key is mapped to the row of the last source entry
    that normalises to it: later entries overwrite earlier ones. *)
Theorem build_title_to_idx_map_last_wins (indices : list (string * Z)) :
  NoDup (Dict.keys (build_title_to_idx_map indices)) /\
  (forall x, In x (Dict.keys (build_title_to_idx_map indices)) <->
             exists k v, In (k, v) indices /\ _norm_title k = x) /\
  (forall before k v after,
      indices = (before ++ (k, v) :: after)%list ->
      (forall k' v', In (k', v') after -> _norm_title k' <> _norm_title k) ->
      Dict.get (build_title_to_idx_map indices) (_norm_title k) = Some v).
Proof.
  unfold build_title_to_idx_map. fold step. repeat split.
  - apply fold_step_NoDup. constructor.
  - rewrite fold_step_keys. intros [[]|Hx]; exact Hx.
  - intros Hx. rewrite fold_step_keys. now right.
  - intros before k v after -> Hafter. now apply fold_step_get_last.
Qed.
End TitleIndex.

(** ** The title resolver *)

Section Resolver.
Context {F : Float} {N : Numpy} {G : Globals}.

(** C4. On a loaded index, a title whose normal form is a key resolves to
    the row the index maps that key to, whatever the fuzzy matcher would
    answer: the exact match comes first.  In particular every key of an
    index made by [build_title_to_idx_map] resolves to its own row. *)
Theorem get_local_idx_by_title_exact (D : Difflib) (d : Dict.t Z) :
  TITLE_TO_IDX = Some d ->
  (forall title row,
      Dict.get d (_norm_title title) = Some row ->
      get_local_idx_by_title title = Ok row) /\
  (forall indices key row,
      d = build_title_to_idx_map indices ->
      Dict.get d key = Some row ->
      get_local_idx_by_title key = Ok row).
Proof.
  intros Hd.
  assert (Hexact : forall title row,
             Dict.get d (_norm_title title) = Some row ->
             get_local_idx_by_title title = Ok row).
  { intros title row Hrow. unfold get_local_idx_by_title.
    rewrite Hd. unfold Dict.contains, Dict.getitem. now rewrite Hrow. }
  split; [exact Hexact|].
  intros indices key row -> Hrow. apply Hexact.
  rewrite (build_title_to_idx_map_keys_normal indices key); [exact Hrow|].
  apply DictFacts.get_Some_keys. eauto.
Qed.

Context {D : Difflib} {DL : DifflibLaws}.

Lemma get_best_local_title_unique (title : string) (d : Dict.t Z) (t' : string) :
  TITLE_TO_IDX = Some d ->
  In t' (Dict.keys d) ->
  ratio_ge_cutoff t' (_norm_title title) = true ->
  (forall k, In k (Dict.keys d) ->
             ratio_ge_cutoff k (_norm_title title) = true -> k = t') ->
  get_best_local_title title = Ok (Some t').
Proof.
  intros Hd Hin Hclose Huniq. unfold get_best_local_title. rewrite Hd.
  destruct (get_close_matches (_norm_title title) (Dict.keys d)) as [|m ms] eqn:E.
  - now apply (get_close_matches_complete _ _ _ Hin) in Hclose.
  - destruct (get_close_matches_sound (_norm_title title) (Dict.keys d) m)
      as [Hm Hr]; [rewrite E; now left|].
    now rewrite (Huniq m Hm Hr).
Qed.

Lemma get_best_local_title_none (title : string) (d : Dict.t Z) :
  TITLE_TO_IDX = Some d ->
  (forall k, In k (Dict.keys d) ->
             ratio_ge_cutoff k (_norm_title title) = false) ->
  get_best_local_title title = Ok None.
Proof.
  intros Hd Hfar. unfold get_best_local_title. rewrite Hd.
  destruct (get_close_matches (_norm_title title) (Dict.keys d)) as [|m ms] eqn:E; auto.
  destruct (get_close_matches_sound (_norm_title title) (Dict.keys d) m)
    as [Hm Hr]; [rewrite E; now left|].
  rewrite (Hfar m Hm) in Hr. discriminate.
Qed.

(** C5. For a title whose normal form is not a key of the index: when
    exactly one key [t'] has a similarity ratio of at least 0.6 to it, the
    title resolves to the row of [t']; when every key has a ratio below
    0.6, resolution raises [HTTPException] 404. *)
Theorem get_local_idx_by_title_fuzzy (title : string) (d : Dict.t Z) :
  TITLE_TO_IDX = Some d ->
  ~ In (_norm_title title) (Dict.keys d) ->
  (forall t' row,
      In t' (Dict.keys d) ->
      ratio_ge_cutoff t' (_norm_title title) = true ->
      (forall k, In k (Dict.keys d) ->
                 ratio_ge_cutoff k (_norm_title title) = true -> k = t') ->
      Dict.get d t' = Some row ->
      get_local_idx_by_title title = Ok row) /\
  ((forall k, In k (Dict.keys d) ->
              ratio_ge_cutoff k (_norm_title title) = false) ->
   get_local_idx_by_title title =
     Raise (HTTPException 404 "Title not in dataset")).
Proof.
  intros Hd Hnew.
  assert (Hc : Dict.contains d (_norm_title title) = false).
  { destruct (Dict.contains d (_norm_title title)) eqn:E; auto.
    apply DictFacts.contains_keys in E. contradiction. }
  split.
  - intros t' row Hin Hclose Huniq Hrow.
    unfold get_local_idx_by_title. rewrite Hd, Hc.
    rewrite (get_best_local_title_unique title Hd Hin Hclose Huniq). simpl.
    destruct t' as [|c t'].
    + apply ratio_empty in Hclose. rewrite Hclose in Hnew. contradiction.
    + simpl. unfold Dict.getitem. now rewrite Hrow.
  - intros Hfar. unfold get_local_idx_by_title. rewrite Hd, Hc.
    now rewrite (get_best_local_title_none title Hd Hfar).
Qed.
End Resolver.

(** ** The similarity ranker *)

Section Ranker.
Context {F : Float} {N : Numpy} {G : Globals} {D : Difflib}.

Lemma quota_0 (top_n : Z) : quota top_n 0 = Z.to_nat (Z.max 1 top_n).
Proof. unfold quota. f_equal. f_equal. change (Z.of_nat 0) with 0. lia. Qed.

Lemma rank_loop_spec (titles : list string) (idx top_n : Z)
    (scores : list float) (order : list nat) :
  df = Some titles ->
  Forall (fun i => (i < List.length titles)%nat /\ (i < List.length scores)%nat) order ->
  forall out,
    rank_loop idx top_n scores order out =
    Ok (out ++ map (entry titles scores)
                   (firstn (quota top_n (List.length out)) (others idx order)))%list.
Proof.
  intros Hdf. induction 1 as [|i order [Hti Hsi] Hall IH]; intros out; simpl.
  - now rewrite firstn_nil, app_nil_r.
  - destruct (Z.of_nat i =? idx) eqn:E; simpl; [apply IH|].
    unfold iloc_title, score_at. rewrite Hdf.
    destruct (nth_error titles i) as [t|] eqn:Et;
      [|apply nth_error_None in Et; lia].
    destruct (nth_error scores i) as [s|] eqn:Es;
      [|apply nth_error_None in Es; lia].
    simpl.
    assert (Hentry : entry titles scores i = (t, s)).
    { unfold entry. f_equal; now apply nth_error_nth. }
    rewrite length_app. simpl List.length.
    destruct (Z.of_nat (List.length out + 1) >=? top_n) eqn:Efull;
      rewrite Z.geb_leb in Efull;
      [apply Z.leb_le in Efull | apply Z.leb_gt in Efull].
    + assert (Hq : quota top_n (List.length out) = 1%nat)
        by (unfold quota; lia).
      rewrite Hq. simpl. now rewrite Hentry.
    + rewrite IH, length_app. simpl List.length.
      assert (Hq : quota top_n (List.length out) =
                   S (quota top_n (List.length out + 1)))
        by (unfold quota; lia).
      rewrite Hq. simpl. now rewrite <- app_assoc, Hentry.
Qed.

Lemma getrow_row_id (m : list vec) (idx : Z) :
  0 <= idx < Z.of_nat (List.length m) ->
  exists qv, getrow m idx = Ok qv.
Proof.
  intros Hidx. unfold getrow.
  replace (idx <? 0) with false by lia.
  replace ((0 <=? idx) && (idx <? Z.of_nat (List.length m)))%bool with true by lia.
  destruct (nth_error m (Z.to_nat idx)) as [r|] eqn:E; eauto.
  apply nth_error_None in E. lia.
Qed.

Context {NL : NumpyLaws}.

Lemma argsort_in_range (v : list float) :
  Forall (fun i => (i < List.length v)%nat) (argsort v).
Proof.
  apply Forall_forall. intros i Hi.
  apply (Permutation_in _ (argsort_perm v)) in Hi.
  apply in_seq in Hi. lia.
Qed.

(** The ranker on a loaded index: what it returns for a title that
    resolves to the row id [idx]. *)
Lemma tfidf_recommend_titles_spec (title : string) (top_n idx : Z)
    (m : list vec) (titles : list string) :
  get_local_idx_by_title title = Ok idx ->
  tfidf_matrix = Some m ->
  df = Some titles ->
  List.length titles = List.length m ->
  0 <= idx < Z.of_nat (List.length m) ->
  exists qv,
    getrow m idx = Ok qv /\
    tfidf_recommend_titles title top_n =
    Ok (map (entry titles (scores_of m qv))
            (firstn (quota top_n 0)
                    (others idx (argsort (map float_neg (scores_of m qv)))))).
Proof.
  intros Hres Hm Hdf Hlen Hidx.
  destruct (getrow_row_id m Hidx) as [qv Hqv]. exists qv. split; auto.
  unfold tfidf_recommend_titles. rewrite Hres, Hm. simpl. rewrite Hqv. simpl.
  fold (scores_of m qv).
  rewrite (rank_loop_spec (titles := titles)); auto.
  eapply Forall_impl; [|apply argsort_in_range].
  intros i Hi. unfold scores_of in *. rewrite !length_map in *. split; lia.
Qed.

Lemma StronglySorted_filter {A} (R : A -> A -> Prop) (f : A -> bool) (l : list A) :
  StronglySorted R l -> StronglySorted R (filter f l).
Proof.
  induction 1 as [|a l HS IH Hall]; simpl; [constructor|].
  destruct (f a); auto. constructor; auto.
  apply Forall_forall. intros x Hx. apply filter_In in Hx.
  now apply (proj1 (Forall_forall _ _) Hall).
Qed.

Lemma StronglySorted_firstn {A} (R : A -> A -> Prop) (k : nat) (l : list A) :
  StronglySorted R l -> StronglySorted R (firstn k l).
Proof.
  intros HS. revert k. induction HS as [|a l HS IH Hall]; intros [|k]; simpl;
    try constructor; auto.
  apply Forall_forall. intros x Hx.
  rewrite <- (firstn_skipn k l) in Hall. apply Forall_app in Hall.
  now apply (proj1 (Forall_forall _ _) (proj1 Hall)).
Qed.

Lemma StronglySorted_map {A B} (R : B -> B -> Prop) (f : A -> B) (l : list A) :
  StronglySorted (fun a b => R (f a) (f b)) l -> StronglySorted R (map f l).
Proof.
  induction 1 as [|a l HS IH Hall]; simpl; constructor; auto.
  apply Forall_map. exact Hall.
Qed.

Lemma StronglySorted_weaken {A} (P : A -> Prop) (R R' : A -> A -> Prop) (l : list A) :
  (forall a b, P a -> P b -> R a b -> R' a b) ->
  Forall P l -> StronglySorted R l -> StronglySorted R' l.
Proof.
  intros HR HP HS. induction HS as [|a l HS IH Hall]; constructor.
  - apply IH. now inversion HP.
  - inversion HP as [|? ? Pa Pl]; subst.
    rewrite Forall_forall in *. intros x Hx. apply HR; auto.
Qed.

Lemma nth_map_neg (scores : list float) (i : nat) :
  (i < List.length scores)%nat ->
  nth i (map float_neg scores) float_zero = float_neg (nth i scores float_zero).
Proof.
  intros Hi.
  rewrite (nth_indep _ float_zero (float_neg float_zero))
    by now rewrite length_map.
  apply map_nth.
Qed.

(** The rows the ranker visits: a rearrangement of all row ids in which
    scores never increase. *)
Lemma argsort_neg_descending {FL : FloatLaws} (scores : list float) :
  StronglySorted
    (fun i j => float_le (nth j scores float_zero) (nth i scores float_zero))
    (argsort (map float_neg scores)).
Proof.
  apply StronglySorted_weaken
    with (P := fun i => (i < List.length scores)%nat)
         (R := fun i j => float_le (nth i (map float_neg scores) float_zero)
                                    (nth j (map float_neg scores) float_zero)).
  - intros i j Hi Hj Hle. rewrite !nth_map_neg in Hle by assumption.
    now apply float_neg_le.
  - rewrite <- (length_map float_neg). apply argsort_in_range.
  - apply argsort_sorted.
Qed.

Lemma others_not_self (idx : Z) (order : list nat) (k : nat) :
  Forall (fun i => Z.of_nat i <> idx) (firstn k (others idx order)).
Proof.
  apply Forall_forall. intros i Hi.
  assert (Hin : In i (others idx order)).
  { rewrite <- (firstn_skipn k (others idx order)). apply in_or_app. now left. }
  apply filter_In in Hin. destruct Hin as [_ Hne]. lia.
Qed.

(** What holds of the ranker on a loaded index, for a title that resolves
    to the row id [idx]: it returns the entries of some rows, none of which
    is [idx]; scores never increase along the list; for [top_n] of 1 or
    more there are at most [top_n] entries. *)
Lemma tfidf_recommend_titles_ranking {FL : FloatLaws} (title : string)
    (top_n idx : Z) (m : list vec) (titles : list string) :
  get_local_idx_by_title title = Ok idx ->
  tfidf_matrix = Some m ->
  df = Some titles ->
  List.length titles = List.length m ->
  0 <= idx < Z.of_nat (List.length m) ->
  exists qv rows,
    getrow m idx = Ok qv /\
    tfidf_recommend_titles title top_n =
      Ok (map (entry titles (scores_of m qv)) rows) /\
    Forall (fun i => Z.of_nat i <> idx) rows /\
    StronglySorted (fun a b => float_le (snd b) (snd a))
                   (map (entry titles (scores_of m qv)) rows) /\
    (1 <= top_n -> Z.of_nat (List.length rows) <= top_n).
Proof.
  intros Hres Hm Hdf Hlen Hidx.
  destruct (tfidf_recommend_titles_spec title top_n Hres Hm Hdf Hlen Hidx)
    as (qv & Hqv & Hout).
  exists qv. eexists. repeat split; [exact Hqv | exact Hout | | |].
  - apply others_not_self.
  - apply StronglySorted_map. simpl.
    apply StronglySorted_firstn, StronglySorted_filter.
    apply argsort_neg_descending.
  - intros Htop. pose proof (firstn_le_length (quota top_n 0)
      (others idx (argsort (map float_neg (scores_of m qv))))) as Hle.
    rewrite quota_0 in *. lia.
Qed.

Lemma others_nonempty (idx : Z) (n : nat) (order : list nat) :
  Permutation order (seq 0 n) -> (2 <= n)%nat ->
  others idx order <> [].
Proof.
  intros Hperm Hn.
  set (j := if idx =? 0 then 1%nat else 0%nat).
  assert (Hj : In j (others idx order)).
  { apply filter_In. split.
    - apply (Permutation_in _ (Permutation_sym Hperm)).
      apply in_seq. subst j. destruct (idx =? 0); lia.
    - subst j. destruct (Z.eqb_spec idx 0) as [->|Hne]; [reflexivity|].
      apply negb_true_iff, Z.eqb_neq. simpl. congruence. }
  intros Hnil. rewrite Hnil in Hj. exact Hj.
Qed.

(** C2. The ranker does not keep to [top_n] when [top_n] is 0 or less: on
    a loaded index of two rows or more, for a title that resolves to a row
    id, it returns exactly one entry, since the length test comes after
    the append. *)
Theorem tfidf_recommend_titles_top_n_nonpositive (title : string)
    (top_n idx : Z) (m : list vec) (titles : list string) :
  get_local_idx_by_title title = Ok idx ->
  tfidf_matrix = Some m ->
  df = Some titles ->
  List.length titles = List.length m ->
  0 <= idx < Z.of_nat (List.length m) ->
  (2 <= List.length m)%nat ->
  top_n <= 0 ->
  exists item, tfidf_recommend_titles title top_n = Ok [item].
Proof.
  intros Hres Hm Hdf Hlen Hidx Hrows Htop.
  destruct (tfidf_recommend_titles_spec title top_n Hres Hm Hdf Hlen Hidx)
    as (qv & Hqv & Hout).
  rewrite Hout.
  assert (Hq : quota top_n 0 = 1%nat) by (rewrite quota_0; lia).
  rewrite Hq.
  destruct (others idx (argsort (map float_neg (scores_of m qv))))
    as [|i rest] eqn:E.
  - exfalso. revert E. apply others_nonempty with (n := List.length m); auto.
    pose proof (argsort_perm (map float_neg (scores_of m qv))) as Hp.
    unfold scores_of in Hp. now rewrite !length_map in Hp.
  - simpl. eauto.
Qed.

End Ranker.

(** ** The orchestrator *)

Section Orchestrator.
Context {F : Float} {N : Numpy} {G : Globals} {E : Env} {X : Httpx}
        {D : Difflib}.

(** [search_bundle], step by step. *)
Lemma search_bundle_steps (query : string) (tfidf_top_n genre_limit : Z) :
  search_bundle query tfidf_top_n genre_limit =
  (best <- tmdb_search_first query ;;
   match best with
   | None => raise (HTTPException 404 "Movie not found")
   | Some best =>
       if Json.empty best then raise (HTTPException 404 "Movie not found")
       else
         (movie_id <- lift (getitem (Json.id best)) ;;
          details <- tmdb_movie_details movie_id ;;
          tfidf_items <-
            enrich (local_similarity (TMDBMovieDetails.title details)
                                     tfidf_top_n) ;;
          genre_recs <- genre_discovery details genre_limit ;;
          ret {| SearchBundleResponse.query := query;
                 SearchBundleResponse.movie_details := details;
                 SearchBundleResponse.tfidf_recommendations :=
                   fallback tfidf_items genre_recs tfidf_top_n;
                 SearchBundleResponse.genre_recommendations := genre_recs |})
   end)%M.
Proof. reflexivity. Qed.

(** An object with an [id] key is not the empty object. *)
Lemma getitem_id_not_empty (m : Json.movie) (v : option Z) :
  getitem (Json.id m) = Ok v -> Json.empty m = false.
Proof.
  unfold Json.empty. destruct (Json.id m); simpl; [discriminate| |]; reflexivity.
Qed.

(** *** The catalog calls *)

Lemma tmdb_get_calls_once (path : string) (params : Dict.t param) (n : nat) :
  snd (tmdb_get path params n) = S n.
Proof.
  unfold tmdb_get. destruct (client_get _ _ _) as [r|]; auto.
  destruct (negb _); auto. destruct (json r); auto.
Qed.

Lemma tmdb_get_raises (path : string) (params : Dict.t param) (n n' : nat) e :
  tmdb_get path params n = (Raise e, n') -> not_found e = false.
Proof.
  unfold tmdb_get. destruct (client_get _ _ _) as [r|].
  - destruct (negb _).
    + intros H. now inversion H.
    + destruct (json r); intros H; now inversion H.
  - intros H. now inversion H.
Qed.

Lemma tmdb_search_first_calls_once (query : string) (n : nat) :
  snd (tmdb_search_first query n) = S n.
Proof.
  unfold tmdb_search_first, bind.
  pose proof (tmdb_get_calls_once "/search/movie"
    [("query", PStr query); ("language", PStr "en-US");
     ("include_adult", PStr "false")] n) as Hc.
  destruct (tmdb_get _ _ n) as [[data|e] n1]; simpl in *; auto.
Qed.


Lemma getitem_raises {A} (f : field A) e :
  getitem f = Raise e -> e = KeyError.
Proof. destruct f; simpl; congruence. Qed.

Lemma required_raises {A} (v : option A) e :
  required v = Raise e -> e = ValidationError.
Proof. destruct v; simpl; congruence. Qed.

Lemma tmdb_movie_details_raises (movie_id : option Z) (n n' : nat) e :
  tmdb_movie_details movie_id n = (Raise e, n') -> not_found e = false.
Proof.
  unfold tmdb_movie_details, bind, lift.
  destruct (tmdb_get _ _ n) as [[data|e'] n1] eqn:Eg.
  - destruct (getitem (Json.id (Json.top data))) as [v|e1] eqn:E1; simpl.
    + destruct (required v) as [a|e2] eqn:E2; simpl.
      * destruct (required (get (Json.title (Json.top data)))) as [t|e3] eqn:E3; simpl.
        -- destruct (required (get_default (Json.genres (Json.top data)) []))
             as [g|e4] eqn:E4; simpl; intros H; inversion H; subst.
           now rewrite (required_raises _ E4).
        -- intros H; inversion H; subst. now rewrite (required_raises _ E3).
      * intros H; inversion H; subst. now rewrite (required_raises _ E2).
    + intros H; inversion H; subst. now rewrite (getitem_raises _ E1).
  - intros H. inversion H; subst. eapply tmdb_get_raises; eauto.
Qed.

Lemma tmdb_cards_from_results_raises (results : option (list Json.movie))
    (limit : Z) e :
  tmdb_cards_from_results results limit = Raise e -> not_found e = false.
Proof.
  unfold tmdb_cards_from_results.
  induction (slice_to _ limit) as [|m l IH]; simpl; [discriminate|].
  destruct (getitem (Json.id m)) as [v|e1] eqn:E1; simpl.
  - destruct v as [z|]; simpl.
    + destruct (rmap _ l) as [cs|e2]; [discriminate|].
      intros H. inversion H; subst. now apply IH.
    + intros H. now inversion H.
  - intros H. inversion H; subst. now rewrite (getitem_raises _ E1).
Qed.


Lemma genre_discovery_no_genres (details : TMDBMovieDetails.t)
    (genre_limit : Z) (n : nat) :
  TMDBMovieDetails.genres details = [] ->
  genre_discovery details genre_limit n = (Ok [], n).
Proof. intros Hg. unfold genre_discovery. now rewrite Hg. Qed.

(** *** Enrichment *)

Lemma attach_tmdb_card_by_title_returns (title : string) (n : nat) :
  exists card, attach_tmdb_card_by_title title n = (Ok card, S n).
Proof.
  unfold attach_tmdb_card_by_title, try_except_M, bind.
  pose proof (tmdb_search_first_calls_once title n) as Hc.
  destruct (tmdb_search_first title n) as [[[m|]|e] n1]; simpl in Hc; subst n1.
  - destruct (Json.empty m); [unfold ret; eauto|].
    unfold lift. destruct (_ <- getitem (Json.id m) ;; _)%result; eauto.
  - unfold ret. eauto.
  - eauto.
Qed.

Lemma enrich_returns (recs : list (string * float)) (n : nat) :
  exists items,
    enrich recs n = (Ok items, (n + List.length recs)%nat) /\
    map TFIDFRecItem.title items = map fst recs /\
    map TFIDFRecItem.score items = map snd recs.
Proof.
  revert n. induction recs as [|[t s] recs IH]; intros n.
  - exists []. simpl. unfold ret. now rewrite Nat.add_0_r.
  - destruct (attach_tmdb_card_by_title_returns t n) as [card Hc].
    destruct (IH (S n)) as (items & Hi & Ht & Hs).
    eexists. unfold enrich in *. simpl. unfold bind at 1 2. simpl.
    rewrite Hc. unfold ret at 1. unfold bind at 1. rewrite Hi. unfold ret.
    split; [f_equal; lia|]. simpl. now rewrite Ht, Hs.
Qed.

(** *** Runs of [search_bundle] *)

(** A run that returns went through every step. *)
Lemma search_bundle_Ok (query : string) (tfidf_top_n genre_limit : Z)
    (n n' : nat) (b : SearchBundleResponse.t) :
  search_bundle query tfidf_top_n genre_limit n = (Ok b, n') ->
  exists best movie_id details n1 n2 items n3 genre_recs,
    tmdb_search_first query n = (Ok (Some best), n1) /\
    getitem (Json.id best) = Ok movie_id /\
    tmdb_movie_details movie_id n1 = (Ok details, n2) /\
    enrich (local_similarity (TMDBMovieDetails.title details) tfidf_top_n) n2 =
      (Ok items, n3) /\
    genre_discovery details genre_limit n3 = (Ok genre_recs, n') /\
    b = {| SearchBundleResponse.query := query;
           SearchBundleResponse.movie_details := details;
           SearchBundleResponse.tfidf_recommendations :=
             fallback items genre_recs tfidf_top_n;
           SearchBundleResponse.genre_recommendations := genre_recs |}.
Proof.
  rewrite search_bundle_steps. unfold bind at 1.
  destruct (tmdb_search_first query n) as [[[best|]|e] n1] eqn:Hs;
    try discriminate.
  destruct (Json.empty best); try discriminate.
  unfold bind at 1, lift at 1.
  destruct (getitem (Json.id best)) as [movie_id|e] eqn:Hid; try discriminate.
  unfold bind at 1.
  destruct (tmdb_movie_details movie_id n1) as [[details|e] n2] eqn:Hd;
    try discriminate.
  unfold bind at 1.
  destruct (enrich _ n2) as [[items|e] n3] eqn:He; try discriminate.
  unfold bind at 1.
  destruct (genre_discovery details genre_limit n3) as [[genre_recs|e] n4] eqn:Hg;
    try discriminate.
  unfold ret. intros H. inversion H; subst.
  exists best, movie_id, details, n1, n2, items, n3, genre_recs.
  repeat split; auto.
Qed.

(** A run whose catalog resolution and details fetch succeed continues
    with enrichment, genre discovery and the fallback. *)
Lemma search_bundle_resolved (query : string) (tfidf_top_n genre_limit : Z)
    (n n1 n2 : nat) best movie_id details :
  tmdb_search_first query n = (Ok (Some best), n1) ->
  getitem (Json.id best) = Ok movie_id ->
  tmdb_movie_details movie_id n1 = (Ok details, n2) ->
  search_bundle query tfidf_top_n genre_limit n =
  (tfidf_items <-
     enrich (local_similarity (TMDBMovieDetails.title details) tfidf_top_n) ;;
   genre_recs <- genre_discovery details genre_limit ;;
   ret {| SearchBundleResponse.query := query;
          SearchBundleResponse.movie_details := details;
          SearchBundleResponse.tfidf_recommendations :=
            fallback tfidf_items genre_recs tfidf_top_n;
          SearchBundleResponse.genre_recommendations := genre_recs |})%M n2.
Proof.
  intros Hs Hid Hd. rewrite search_bundle_steps. unfold bind at 1.
  rewrite Hs, (getitem_id_not_empty _ Hid).
  unfold bind at 1, lift at 1. rewrite Hid.
  unfold bind at 1. now rewrite Hd.
Qed.

Lemma enrich_nil (recs : list (string * float)) (n n' : nat) items :
  enrich recs n = (Ok items, n') -> (items = [] <-> recs = []).
Proof.
  intros He. destruct (enrich_returns recs n) as (items' & He' & Ht & _).
  rewrite He in He'. inversion He'; subst items'.
  split; intros ->.
  - destruct recs; [reflexivity | discriminate].
  - destruct items; [reflexivity | discriminate].
Qed.

Lemma slice_to_nonneg {A} (l : list A) (k : Z) :
  0 <= k -> slice_to l k = firstn (Z.to_nat k) l.
Proof. intros Hk. unfold slice_to. now replace (0 <=? k) with true by lia. Qed.

(** C1 (amended). When the similarity step gives no item, genre discovery
    gives at least one card and [tfidf_top_n] is not negative, the returned
    similarity list is made of the first [tfidf_top_n] genre cards in their
    order, each with score 0.0 and the card itself as enrichment; its
    length is the smaller of [tfidf_top_n] and the number of genre
    cards. *)
Theorem search_bundle_fallback (query : string) (tfidf_top_n genre_limit : Z)
    (n n' : nat) (b : SearchBundleResponse.t) :
  search_bundle query tfidf_top_n genre_limit n = (Ok b, n') ->
  local_similarity
    (TMDBMovieDetails.title (SearchBundleResponse.movie_details b))
    tfidf_top_n = [] ->
  SearchBundleResponse.genre_recommendations b <> [] ->
  0 <= tfidf_top_n ->
  SearchBundleResponse.tfidf_recommendations b =
    map fallback_item
        (firstn (Z.to_nat tfidf_top_n)
                (SearchBundleResponse.genre_recommendations b)) /\
  Z.of_nat (List.length (SearchBundleResponse.tfidf_recommendations b)) =
    Z.min tfidf_top_n
          (Z.of_nat (List.length (SearchBundleResponse.genre_recommendations b))) /\
  Forall (fun item => TFIDFRecItem.score item = float_zero)
         (SearchBundleResponse.tfidf_recommendations b).
Proof.
  intros Hrun Hlocal Hgenre Htop.
  destruct (search_bundle_Ok _ _ _ _ Hrun)
    as (best & movie_id & details & n1 & n2 & items & n3 & genre_recs
        & _ & _ & _ & Henrich & _ & ->).
  simpl in *.
  assert (Hitems : items = []) by (apply (enrich_nil _ _ Henrich); exact Hlocal).
  subst items. unfold fallback.
  destruct genre_recs as [|c cs]; [contradiction|].
  rewrite slice_to_nonneg by assumption.
  split; [reflexivity|]. split.
  - rewrite length_map, length_firstn. lia.
  - apply Forall_map, Forall_forall. reflexivity.
Qed.




(** C7. When the catalog resolution and the details fetch succeed and the
    ranker raises, whatever the exception, the similarity step gives the
    empty list and the run goes on as it does with no similarity item:
    no enrichment call, then genre discovery and the fallback.  The run
    returns whenever genre discovery does; the ranker's exception is not
    raised. *)
Theorem search_bundle_similarity_failure (query : string)
    (tfidf_top_n genre_limit : Z) (n n1 n2 : nat) best movie_id details e :
  tmdb_search_first query n = (Ok (Some best), n1) ->
  getitem (Json.id best) = Ok movie_id ->
  tmdb_movie_details movie_id n1 = (Ok details, n2) ->
  tfidf_recommend_titles (TMDBMovieDetails.title details) tfidf_top_n = Raise e ->
  local_similarity (TMDBMovieDetails.title details) tfidf_top_n = [] /\
  search_bundle query tfidf_top_n genre_limit n =
    match genre_discovery details genre_limit n2 with
    | (Ok genre_recs, n3) =>
        (Ok {| SearchBundleResponse.query := query;
               SearchBundleResponse.movie_details := details;
               SearchBundleResponse.tfidf_recommendations :=
                 fallback [] genre_recs tfidf_top_n;
               SearchBundleResponse.genre_recommendations := genre_recs |},
         n3)
    | (Raise e', n3) => (Raise e', n3)
    end.
Proof.
  intros Hs Hid Hd Hraise.
  assert (Hlocal : local_similarity (TMDBMovieDetails.title details) tfidf_top_n = [])
    by (unfold local_similarity; now rewrite Hraise).
  split; [exact Hlocal|].
  rewrite (search_bundle_resolved _ _ _ _ Hs Hid Hd), Hlocal.
  unfold bind at 1. simpl. unfold ret at 1. unfold bind.
  destruct (genre_discovery details genre_limit n2) as [[genre_recs|e'] n3];
    reflexivity.
Qed.

(** The search request the enrichment call sends. *)
Lemma tmdb_search_first_transport (title : string) (n : nat) :
  client_get n (TMDB_BASE ++ "/search/movie") (search_params title) = None ->
  tmdb_search_first title n = (Raise TransportError, S n).
Proof.
  intros Hc. unfold tmdb_search_first, bind, tmdb_get.
  fold (search_params title). now rewrite Hc.
Qed.

Lemma tmdb_search_first_status (title : string) (n : nat) (r : Response) :
  client_get n (TMDB_BASE ++ "/search/movie") (search_params title) = Some r ->
  status_code r <> 200 ->
  tmdb_search_first title n =
    (Raise (HTTPException 502 ("TMDB error " ++ str_of_int (status_code r))), S n).
Proof.
  intros Hc Hs. unfold tmdb_search_first, bind, tmdb_get.
  fold (search_params title). rewrite Hc.
  apply Z.eqb_neq in Hs. now rewrite Hs.
Qed.

(** C8. The enrichment call never raises: it returns a card or [None],
    after one HTTP call.  Every failure of the catalog call gives [None]:
    a transport error, a status other than 200, any exception of
    [tmdb_search_first], and a first result without [id] or [title].
    Hence the enrichment loop returns one item for each similarity hit,
    whatever happens to the sibling calls. *)
Theorem attach_tmdb_card_by_title_best_effort (title : string) (n : nat) :
  (exists card, attach_tmdb_card_by_title title n = (Ok card, S n)) /\
  (client_get n (TMDB_BASE ++ "/search/movie") (search_params title) = None ->
   attach_tmdb_card_by_title title n = (Ok None, S n)) /\
  (forall r,
      client_get n (TMDB_BASE ++ "/search/movie") (search_params title) = Some r ->
      status_code r <> 200 ->
      attach_tmdb_card_by_title title n = (Ok None, S n)) /\
  (forall e n', tmdb_search_first title n = (Raise e, n') ->
                attach_tmdb_card_by_title title n = (Ok None, n')) /\
  (forall m n', tmdb_search_first title n = (Ok (Some m), n') ->
                get (Json.id m) = None \/ get (Json.title m) = None ->
                attach_tmdb_card_by_title title n = (Ok None, n')) /\
  (forall recs, exists items,
      enrich recs n = (Ok items, (n + List.length recs)%nat) /\
      map TFIDFRecItem.title items = map fst recs /\
      map TFIDFRecItem.score items = map snd recs).
Proof.
  assert (Hraise : forall e n', tmdb_search_first title n = (Raise e, n') ->
                                attach_tmdb_card_by_title title n = (Ok None, n')).
  { intros e n' Hs. unfold attach_tmdb_card_by_title, try_except_M, bind.
    now rewrite Hs. }
  split; [apply attach_tmdb_card_by_title_returns|].
  split; [|split; [|split; [|split]]].
  - intros Hc. exact (Hraise _ _ (tmdb_search_first_transport _ _ Hc)).
  - intros r Hc Hs. exact (Hraise _ _ (tmdb_search_first_status _ _ Hc Hs)).
  - exact Hraise.
  - intros m n' Hs Hmiss.
    unfold attach_tmdb_card_by_title, try_except_M, bind. rewrite Hs.
    destruct (Json.empty m); [reflexivity|].
    unfold lift.
    destruct (Json.id m) as [| |i]; simpl; try reflexivity.
    destruct (Json.title m) as [| |t]; simpl; try reflexivity.
    destruct Hmiss; discriminate.
  - intros recs. apply enrich_returns.
Qed.

(** C10. In every bundle [search_bundle] returns, [query] is the query
    received, [movie_details] is what the details fetch gave for the first
    search result, and [genre_recommendations] is what genre discovery gave
    for those details, the empty list when they carry no genre; this holds
    whether the fallback replaces the similarity list or not. *)
Theorem search_bundle_frame (query : string) (tfidf_top_n genre_limit : Z)
    (n n' : nat) (b : SearchBundleResponse.t) :
  search_bundle query tfidf_top_n genre_limit n = (Ok b, n') ->
  SearchBundleResponse.query b = query /\
  exists best movie_id n1 n2 n3,
    tmdb_search_first query n = (Ok (Some best), n1) /\
    getitem (Json.id best) = Ok movie_id /\
    tmdb_movie_details movie_id n1 =
      (Ok (SearchBundleResponse.movie_details b), n2) /\
    n3 = (n2 + List.length
                 (local_similarity
                    (TMDBMovieDetails.title (SearchBundleResponse.movie_details b))
                    tfidf_top_n))%nat /\
    genre_discovery (SearchBundleResponse.movie_details b) genre_limit n3 =
      (Ok (SearchBundleResponse.genre_recommendations b), n') /\
    (TMDBMovieDetails.genres (SearchBundleResponse.movie_details b) = [] ->
     SearchBundleResponse.genre_recommendations b = []).
Proof.
  intros Hrun.
  destruct (search_bundle_Ok _ _ _ _ Hrun)
    as (best & movie_id & details & n1 & n2 & items & n3 & genre_recs
        & Hs & Hid & Hd & Henrich & Hg & ->).
  simpl. split; [reflexivity|].
  exists best, movie_id, n1, n2, n3.
  destruct (enrich_returns
              (local_similarity (TMDBMovieDetails.title details) tfidf_top_n) n2)
    as (items' & He' & _).
  rewrite Henrich in He'. inversion He'; subst.
  repeat split; auto.
  intros Hnil. rewrite (genre_discovery_no_genres _ _ _ Hnil) in Hg.
  now inversion Hg.
Qed.
End Orchestrator.

(** ** The concrete setting meets the interfaces *)

Module ScenarioFacts.
Import Scenario.

Lemma ZFloat_laws : @FloatLaws ZFloat.
Proof. constructor. simpl. intros a b. lia. Qed.

Section Insertion.
Variable ties_first : bool.
Variable v : list Z.

Let le_key (i j : nat) : Prop := nth i v 0 <= nth j v 0.

Lemma insert_index_perm (i : nat) (l : list nat) :
  Permutation (insert_index ties_first v i l) (i :: l).
Proof.
  induction l as [|j l IH]; simpl; auto.
  destruct (if ties_first then _ else _); auto.
  rewrite IH. apply perm_swap.
Qed.

Lemma insert_index_sorted (i : nat) (l : list nat) :
  StronglySorted le_key l ->
  StronglySorted le_key (insert_index ties_first v i l).
Proof.
  induction 1 as [|j l HS IH Hall]; simpl.
  - repeat constructor.
  - destruct (if ties_first then _ else _) eqn:E.
    + assert (Hij : le_key i j)
        by (unfold le_key; destruct ties_first; lia).
      constructor; [now constructor|].
      constructor; auto.
      eapply Forall_impl; [|exact Hall].
      unfold le_key in *. intros x Hx. lia.
    + assert (Hji : le_key j i)
        by (unfold le_key; destruct ties_first; lia).
      constructor; auto.
      apply Forall_forall. intros x Hx.
      apply (Permutation_in _ (insert_index_perm i l)) in Hx.
      destruct Hx as [<-|Hx]; auto.
      now apply (proj1 (Forall_forall _ _) Hall).
Qed.

Lemma fold_insert_perm (xs acc : list nat) :
  Permutation
    (fold_left (fun l i => insert_index ties_first v i l) xs acc)
    (acc ++ xs)%list.
Proof.
  revert acc. induction xs as [|x xs IH]; intros acc; simpl.
  - now rewrite app_nil_r.
  - rewrite IH, insert_index_perm. simpl. apply Permutation_middle.
Qed.

Lemma fold_insert_sorted (xs acc : list nat) :
  StronglySorted le_key acc ->
  StronglySorted le_key
    (fold_left (fun l i => insert_index ties_first v i l) xs acc).
Proof.
  revert acc. induction xs as [|x xs IH]; intros acc HS; simpl; auto.
  apply IH. now apply insert_index_sorted.
Qed.
End Insertion.

Lemma argsort_by_laws (ties_first : bool) :
  @NumpyLaws ZFloat (@Build_Numpy ZFloat (list Z) dotZ (argsort_by ties_first)).
Proof.
  constructor; simpl; intros v; unfold argsort_by.
  - apply (fold_insert_perm ties_first v (seq 0 (List.length v)) []).
  - apply fold_insert_sorted. constructor.
Qed.

Lemma fold_better_in (word : string) (l : list string) (x : string) :
  In (fold_left (better word) l x) (x :: l).
Proof.
  revert x. induction l as [|y l IH]; intros x; simpl; auto.
  destruct (IH (better word x y)) as [Hb|Hl]; auto.
  rewrite <- Hb. unfold better. destruct (_ <? _)%nat; auto.
Qed.

Lemma LcsDifflib_laws : @DifflibLaws LcsDifflib.
Proof.
  constructor; simpl.
  - intros word ks x. unfold best_match.
    destruct (filter _ ks) as [|y l] eqn:E; simpl; [tauto|].
    intros [<-|[]].
    apply (proj1 (filter_In (fun x => ratio_ge x word) _ ks)).
    rewrite E. apply fold_better_in.
  - intros word ks x Hin Hr. unfold best_match.
    destruct (filter _ ks) as [|y l] eqn:E; [|discriminate].
    assert (Hx : In x (filter (fun x => ratio_ge x word) ks))
      by (apply filter_In; auto).
    rewrite E in Hx. destruct Hx.
  - intros word. unfold ratio_ge. simpl. intros Hr.
    apply Nat.leb_le in Hr. destruct word; [reflexivity|simpl in Hr; lia].
Qed.
End ScenarioFacts.

(** ** The statements on the concrete setting *)

Section OnScenario.
Import Scenario ScenarioFacts.

Local Abbreviation resolve :=
  (@get_local_idx_by_title ZFloat StableNumpy Loaded LcsDifflib).
Local Abbreviation rank :=
  (@tfidf_recommend_titles ZFloat StableNumpy Loaded LcsDifflib).
Local Abbreviation attach := (@attach_tmdb_card_by_title ZFloat TheEnv Catalog).
Local Abbreviation search G :=
  (@search_bundle ZFloat StableNumpy G TheEnv Catalog LcsDifflib).
Local Abbreviation similarity G :=
  (@local_similarity ZFloat StableNumpy G LcsDifflib).
Local Abbreviation discover := (@genre_discovery ZFloat TheEnv Catalog).
Local Abbreviation fetch_details := (@tmdb_movie_details ZFloat TheEnv Catalog).
Local Abbreviation search_first := (@tmdb_search_first ZFloat TheEnv Catalog).

(** Three titles that share a normal form: the last one gives the row. *)
Lemma build_title_to_idx_map_last_wins_witness :
  Dict.get
    (build_title_to_idx_map [("Heat", 0); (" heat ", 1); ("HEAT", 2); ("Alien", 3)])
    (_norm_title "HEAT") = Some 2.
Proof.
  apply (proj2 (proj2 (build_title_to_idx_map_last_wins
                         [("Heat", 0); (" heat ", 1); ("HEAT", 2); ("Alien", 3)]))
           [("Heat", 0); (" heat ", 1)] "HEAT" 2 [("Alien", 3)]).
  - reflexivity.
  - intros k' v' [Hk|[]]. inversion Hk; subst. vm_compute. discriminate.
Defined.

(** A known title, up to case and blanks, resolves to its row, and so
    does a key of the index. *)
Lemma get_local_idx_by_title_exact_witness :
  resolve "  THE Avengers " = Ok 0 /\ resolve "iron man" = Ok 1.
Proof.
  split.
  - apply (proj1 (@get_local_idx_by_title_exact ZFloat StableNumpy Loaded
                    LcsDifflib (build_title_to_idx_map indices) eq_refl)
             "  THE Avengers " 0).
    vm_compute. reflexivity.
  - apply (proj2 (@get_local_idx_by_title_exact ZFloat StableNumpy Loaded
                    LcsDifflib (build_title_to_idx_map indices) eq_refl)
             indices "iron man" 1).
    + reflexivity.
    + vm_compute. reflexivity.
Defined.

(** The misspelt "Avngers" resolves to the row of The Avengers, the only
    key close to it; "Solaris" is close to no key. *)
Lemma get_local_idx_by_title_fuzzy_witness :
  resolve "Avngers" = Ok 0 /\
  resolve "Solaris" = Raise (HTTPException 404 "Title not in dataset").
Proof.
  split.
  - apply (proj1 (@get_local_idx_by_title_fuzzy ZFloat StableNumpy Loaded
                    LcsDifflib LcsDifflib_laws "Avngers"
                    (build_title_to_idx_map indices) eq_refl
                    ltac:(vm_compute; intros [H|[H|[H|[H|[]]]]]; discriminate))
           "the avengers" 0).
    + vm_compute. auto.
    + vm_compute. reflexivity.
    + intros k Hk. vm_compute in Hk.
      destruct Hk as [<-|[<-|[<-|[<-|[]]]]]; vm_compute;
        (reflexivity || discriminate).
    + vm_compute. reflexivity.
  - apply (proj2 (@get_local_idx_by_title_fuzzy ZFloat StableNumpy Loaded
                    LcsDifflib LcsDifflib_laws "Solaris"
                    (build_title_to_idx_map indices) eq_refl
                    ltac:(vm_compute; intros [H|[H|[H|[H|[]]]]]; discriminate))).
    intros k Hk. vm_compute in Hk.
    destruct Hk as [<-|[<-|[<-|[<-|[]]]]]; vm_compute; reflexivity.
Defined.

(** Asked for no recommendation, the ranker returns one. *)
Lemma tfidf_recommend_titles_top_n_nonpositive_witness :
  exists item, rank "The Avengers" 0 = Ok [item].
Proof.
  apply (@tfidf_recommend_titles_top_n_nonpositive ZFloat StableNumpy Loaded
           LcsDifflib (argsort_by_laws false) "The Avengers" 0 0 matrix titles).
  - vm_compute. reflexivity.
  - reflexivity.
  - reflexivity.
  - reflexivity.
  - simpl. lia.
  - simpl. lia.
  - lia.
Defined.

(** "Solaris" is in the catalog and not in the index: with
    [tfidf_top_n = 2] the similarity list is made of the first two of the
    three genre cards. *)
Lemma search_bundle_fallback_witness :
  exists b n',
    search Loaded "Solaris" 2 12 0%nat = (Ok b, n') /\
    SearchBundleResponse.tfidf_recommendations b =
      map fallback_item
          (firstn 2 (SearchBundleResponse.genre_recommendations b)) /\
    Z.of_nat (List.length (SearchBundleResponse.tfidf_recommendations b)) =
      Z.min 2 (Z.of_nat (List.length (SearchBundleResponse.genre_recommendations b))) /\
    Forall (fun item => TFIDFRecItem.score item = float_zero)
           (SearchBundleResponse.tfidf_recommendations b).
Proof.
  destruct (search Loaded "Solaris" 2 12 0%nat) as [[b|e] n'] eqn:Hrun;
    [|vm_compute in Hrun; discriminate].
  exists b, n'. split; [reflexivity|].
  apply (@search_bundle_fallback ZFloat StableNumpy Loaded TheEnv Catalog
           LcsDifflib "Solaris" 2 12 0%nat n' b Hrun).
  - vm_compute in Hrun. inversion Hrun; subst. vm_compute. reflexivity.
  - vm_compute in Hrun. inversion Hrun; subst. vm_compute. discriminate.
  - lia.
Defined.

(** C1, as stated, fails for a negative [tfidf_top_n]: the slice
    [genre_recs[:-1]] keeps all cards but the last, two of three here,
    while the smaller of -1 and 3 is -1. *)
Lemma search_bundle_fallback_counterexample :
  ~ (forall (F : Float) (N : Numpy) (G : Globals) (E : Env) (X : Httpx)
            (D : Difflib) (query : string) (tfidf_top_n genre_limit : Z)
            (n n' : nat) (b : SearchBundleResponse.t),
        search_bundle query tfidf_top_n genre_limit n = (Ok b, n') ->
        local_similarity
          (TMDBMovieDetails.title (SearchBundleResponse.movie_details b))
          tfidf_top_n = [] ->
        SearchBundleResponse.genre_recommendations b <> [] ->
        Z.of_nat (List.length (SearchBundleResponse.tfidf_recommendations b)) =
          Z.min tfidf_top_n
                (Z.of_nat
                   (List.length (SearchBundleResponse.genre_recommendations b)))).
Proof.
  intros Hclaim.
  destruct (search Loaded "Solaris" (-1) 12 0%nat) as [[b|e] n'] eqn:Hrun;
    [|vm_compute in Hrun; discriminate].
  specialize (Hclaim ZFloat StableNumpy Loaded TheEnv Catalog LcsDifflib
                "Solaris" (-1) 12 0%nat n' b Hrun).
  vm_compute in Hrun. inversion Hrun; subst. clear Hrun.
  vm_compute in Hclaim.
  specialize (Hclaim eq_refl ltac:(discriminate)).
  discriminate.
Defined.




(** Before start-up the ranker raises [TypeError]; the run returns all the
    same. *)
Lemma search_bundle_similarity_failure_witness :
  exists details,
    fetch_details (Some 24428) 1%nat = (Ok details, 2%nat) /\
    similarity not_loaded (TMDBMovieDetails.title details) 12 = [] /\
    search not_loaded "Avngers" 12 12 0%nat =
      match discover details 12 2%nat with
      | (Ok genre_recs, n3) =>
          (Ok {| SearchBundleResponse.query := "Avngers";
                 SearchBundleResponse.movie_details := details;
                 SearchBundleResponse.tfidf_recommendations :=
                   fallback [] genre_recs 12;
                 SearchBundleResponse.genre_recommendations := genre_recs |},
           n3)
      | (Raise e', n3) => (Raise e', n3)
      end.
Proof.
  destruct (fetch_details (Some 24428) 1%nat)
    as [[details|e] n2] eqn:Hd; [|vm_compute in Hd; discriminate].
  assert (Hn2 : n2 = 2%nat) by (vm_compute in Hd; now inversion Hd).
  subst n2. exists details. split; [reflexivity|].
  apply (@search_bundle_similarity_failure ZFloat StableNumpy not_loaded TheEnv
           Catalog LcsDifflib "Avngers" 12 12 0%nat 1%nat 2%nat
           (movie 24428 "The Avengers") (Some 24428) details TypeError).
  - vm_compute. reflexivity.
  - reflexivity.
  - exact Hd.
  - reflexivity.
Defined.

(** A transport error in the catalog call gives no card, and so does a
    status 500. *)
Lemma attach_tmdb_card_by_title_best_effort_witness :
  attach "Thor" 0%nat = (Ok None, 1%nat) /\
  attach "Heat" 0%nat = (Ok None, 1%nat).
Proof.
  split.
  - apply (proj1 (proj2 (@attach_tmdb_card_by_title_best_effort ZFloat TheEnv
                           Catalog "Thor" 0%nat))).
    vm_compute. reflexivity.
  - apply (proj1 (proj2 (proj2 (@attach_tmdb_card_by_title_best_effort ZFloat
                                  TheEnv Catalog "Heat" 0%nat)))
             {| status_code := 500; json := None |}).
    + vm_compute. reflexivity.
    + discriminate.
Defined.

(** The bundle for "Avngers" carries the query, the details fetched and
    the genre cards discovered. *)
Lemma search_bundle_frame_witness :
  exists b n',
    search Loaded "Avngers" 3 2 0%nat = (Ok b, n') /\
    SearchBundleResponse.query b = "Avngers" /\
    exists best movie_id n1 n2 n3,
      search_first "Avngers" 0%nat = (Ok (Some best), n1) /\
      getitem (Json.id best) = Ok movie_id /\
      fetch_details movie_id n1 =
        (Ok (SearchBundleResponse.movie_details b), n2) /\
      n3 = (n2 + List.length
                   (similarity Loaded
                      (TMDBMovieDetails.title (SearchBundleResponse.movie_details b))
                      3))%nat /\
      discover (SearchBundleResponse.movie_details b) 2 n3 =
        (Ok (SearchBundleResponse.genre_recommendations b), n') /\
      (TMDBMovieDetails.genres (SearchBundleResponse.movie_details b) = [] ->
       SearchBundleResponse.genre_recommendations b = []).
Proof.
  destruct (search Loaded "Avngers" 3 2 0%nat) as [[b|e] n'] eqn:Hrun;
    [|vm_compute in Hrun; discriminate].
  exists b, n'. split; [reflexivity|].
  exact (@search_bundle_frame ZFloat StableNumpy Loaded TheEnv Catalog
           LcsDifflib "Avngers" 3 2 0%nat n' b Hrun).
Defined.
End OnScenario.

(** * Further properties *)

(** ** Building cards from catalog results *)

Section Cards.
Context {F : Float}.

Lemma rmap_Ok {A B} (f : A -> result B) (l : list A) (bs : list B) :
  rmap f l = Ok bs <-> Forall2 (fun a b => f a = Ok b) l bs.
Proof.
  revert bs. induction l as [|a l IH]; intros bs; simpl.
  - split; [intros H; inversion H; constructor | intros H; now inversion H].
  - destruct (f a) as [b|e] eqn:Ea.
    + destruct (rmap f l) as [bs'|e'] eqn:El.
      * split.
        -- intros H. inversion H; subst. constructor; [exact Ea | now apply IH].
        -- intros H. inversion H as [|? b0 ? bs0 Hb Hbs]; subst.
           apply IH in Hbs. congruence.
      * split; [discriminate|].
        intros H. inversion H as [|? b0 ? bs0 Hb Hbs]; subst.
        apply IH in Hbs. discriminate.
    + split; [discriminate|].
      intros H. inversion H; subst. congruence.
Qed.

Lemma rmap_Raise {A B} (f : A -> result B) (l : list A) (e : exn) :
  rmap f l = Raise e <->
  exists before a after,
    l = (before ++ a :: after)%list /\
    Forall (fun x => exists b, f x = Ok b) before /\
    f a = Raise e.
Proof.
  induction l as [|a l IH]; simpl.
  - split; [discriminate|].
    intros (before & x & after & Hl & _). now destruct before.
  - destruct (f a) as [b|e0] eqn:Ea.
    + assert (Hstep : rmap f l = Raise e <->
                      exists before x after,
                        a :: l = (before ++ x :: after)%list /\
                        Forall (fun x => exists b, f x = Ok b) before /\
                        f x = Raise e).
      { rewrite IH. split.
        - intros (before & x & after & -> & Hall & Hx).
          exists (a :: before), x, after. repeat split; eauto.
        - intros (before & x & after & Hl & Hall & Hx).
          destruct before as [|y before]; simpl in Hl; inversion Hl; subst.
          + congruence.
          + inversion Hall; subst. eauto 6. }
      rewrite <- Hstep.
      destruct (rmap f l) as [bs'|e']; split; congruence.
    + split.
      * intros H. inversion H; subst. exists [], a, l. repeat split; auto.
      * intros (before & x & after & Hl & Hall & Hx).
        destruct before as [|y before]; simpl in Hl; inversion Hl; subst.
        -- congruence.
        -- inversion Hall as [|? ? [b Hb] _]; subst. congruence.
Qed.

Lemma tmdb_cards_from_results_unfold (results : option (list Json.movie))
    (limit : Z) :
  tmdb_cards_from_results results limit =
  rmap card_of_result (slice_to (or_empty results) limit).
Proof. reflexivity. Qed.

Lemma card_of_result_Ok (m : Json.movie) (c : TMDBMovieCard.t) :
  card_of_result m = Ok c <-> shows m c.
Proof.
  unfold card_of_result, shows, title_or_empty.
  destruct (Json.id m) as [| |i]; simpl.
  - split; [discriminate | intros [H _]; discriminate].
  - split; [discriminate | intros [H _]; discriminate].
  - split.
    + intros H. inversion H; subst. simpl. repeat split; reflexivity.
    + intros (Hi & Ht & Hp & Hr & Hv). inversion Hi; subst.
      destruct c; simpl in *. now subst.
Qed.

Lemma card_of_result_Raise (m : Json.movie) (e : exn) :
  card_of_result m = Raise e <->
  (Json.id m = Missing /\ e = KeyError) \/ (Json.id m = Null /\ e = TypeError).
Proof.
  unfold card_of_result. destruct (Json.id m) as [| |i]; simpl.
  - split; [intros H; inversion H; auto | intros [[_ ->]|[H _]]; congruence].
  - split; [intros H; inversion H; auto | intros [[H _]|[_ ->]]; congruence].
  - split; [discriminate | intros [[H _]|[H _]]; discriminate].
Qed.

Lemma slice_to_length_le {A} (l : list A) (k : Z) :
  0 <= k -> Z.of_nat (List.length (slice_to l k)) <= k.
Proof.
  intros Hk. unfold slice_to. replace (0 <=? k) with true by lia.
  pose proof (firstn_le_length (Z.to_nat k) l). lia.
Qed.

Lemma tmdb_cards_from_results_Ok (results : option (list Json.movie))
    (limit : Z) (cards : list TMDBMovieCard.t) :
  tmdb_cards_from_results results limit = Ok cards <->
  Forall2 shows (slice_to (or_empty results) limit) cards.
Proof.
  rewrite tmdb_cards_from_results_unfold, rmap_Ok. split; intros H.
  - eapply Forall2_impl; [|exact H]. intros m c. apply card_of_result_Ok.
  - eapply Forall2_impl; [|exact H]. intros m c. apply card_of_result_Ok.
Qed.

Lemma tmdb_cards_from_results_length (results : option (list Json.movie))
    (limit : Z) (cards : list TMDBMovieCard.t) :
  tmdb_cards_from_results results limit = Ok cards ->
  0 <= limit -> Z.of_nat (List.length cards) <= limit.
Proof.
  intros Hc Hlimit. apply tmdb_cards_from_results_Ok in Hc.
  apply Forall2_length in Hc. rewrite <- Hc.
  now apply slice_to_length_le.
Qed.

(** X1. [tmdb_cards_from_results] looks at the first [limit] results only
    ([results[:limit]], no result when [results] is [None]).  It returns
    one card for each of them, in order, with the result's [id], its
    [title] or the empty string, and its poster URL; so for [limit >= 0]
    there are at most [limit] cards.  It raises exactly when one of those
    results has no [id]: [KeyError] when the key is missing, [TypeError]
    when it is [null], for the first such result. *)
Theorem tmdb_cards_from_results_spec (results : option (list Json.movie))
    (limit : Z) :
  (forall cards,
      tmdb_cards_from_results results limit = Ok cards <->
      Forall2 shows (slice_to (or_empty results) limit) cards) /\
  (forall e,
      tmdb_cards_from_results results limit = Raise e <->
      exists before m after,
        slice_to (or_empty results) limit = (before ++ m :: after)%list /\
        Forall has_id before /\
        ((Json.id m = Missing /\ e = KeyError) \/
         (Json.id m = Null /\ e = TypeError))) /\
  (forall cards,
      tmdb_cards_from_results results limit = Ok cards ->
      0 <= limit -> Z.of_nat (List.length cards) <= limit).
Proof.
  split; [apply tmdb_cards_from_results_Ok|].
  split; [|apply tmdb_cards_from_results_length].
  intros e. rewrite tmdb_cards_from_results_unfold, rmap_Raise. split.
  - intros (before & m & after & Hl & Hall & Hm).
    exists before, m, after. repeat split; auto.
    + eapply Forall_impl; [|exact Hall]. intros x [c Hc].
      apply card_of_result_Ok in Hc. destruct Hc as [Hi _].
      now exists (TMDBMovieCard.tmdb_id c).
    + now apply card_of_result_Raise.
  - intros (before & m & after & Hl & Hall & Hm).
    exists before, m, after. repeat split; auto.
    + eapply Forall_impl; [|exact Hall]. intros x [i Hi].
      unfold card_of_result. rewrite Hi. simpl. eauto.
    + now apply card_of_result_Raise.
Qed.
End Cards.

(** ** The catalog client and the plain routes *)

Section Catalog.
Context {F : Float} {E : Env} {X : Httpx}.

Lemma tmdb_get_Ok (path : string) (params : Dict.t param) (n n' : nat)
    (data : Json.body) :
  tmdb_get path params n = (Ok data, n') <->
  n' = S n /\ answers n path params data.
Proof.
  unfold tmdb_get, answers.
  destruct (client_get n _ _) as [r|].
  - destruct (status_code r =? 200) eqn:Es; simpl.
    + apply Z.eqb_eq in Es. destruct (json r) as [d|] eqn:Ej.
      * split.
        -- intros H. inversion H; subst. split; eauto.
        -- intros (-> & r' & Hr & _ & Hj). inversion Hr; subst. congruence.
      * split; [discriminate|].
        intros (_ & r' & Hr & _ & Hj). inversion Hr; subst. congruence.
    + apply Z.eqb_neq in Es. split; [discriminate|].
      intros (_ & r' & Hr & Hs & _). inversion Hr; subst. contradiction.
  - split; [discriminate|]. intros (_ & r' & Hr & _). discriminate.
Qed.

Lemma tmdb_get_status (path : string) (params : Dict.t param) (n : nat)
    (r : Response) :
  client_get n (TMDB_BASE ++ path)
             (Dict.set params "api_key" (PStr TMDB_API_KEY)) = Some r ->
  status_code r <> 200 ->
  tmdb_get path params n =
    (Raise (HTTPException 502 ("TMDB error " ++ str_of_int (status_code r))), S n).
Proof.
  intros Hr Hs. unfold tmdb_get. rewrite Hr.
  apply Z.eqb_neq in Hs. now rewrite Hs.
Qed.

Lemma tmdb_movie_details_calls_once (movie_id : option Z) (n : nat) :
  snd (tmdb_movie_details movie_id n) = S n.
Proof.
  unfold tmdb_movie_details, bind.
  pose proof (tmdb_get_calls_once ("/movie/" ++ str_of_movie_id movie_id)
                [("language", PStr "en-US")] n) as Hc.
  destruct (tmdb_get _ _ n) as [[data|e] n1]; simpl in *; [|exact Hc].
  unfold lift. simpl. exact Hc.
Qed.

Lemma tmdb_movie_details_Ok (movie_id : option Z) (n n' : nat)
    (d : TMDBMovieDetails.t) :
  tmdb_movie_details movie_id n = (Ok d, n') <->
  n' = S n /\
  exists data,
    answers n ("/movie/" ++ str_of_movie_id movie_id)
            [("language", PStr "en-US")] data /\
    describes (Json.top data) d.
Proof.
  unfold tmdb_movie_details, bind, lift, describes.
  destruct (tmdb_get _ _ n) as [[data|e] n1] eqn:Eg.
  - apply tmdb_get_Ok in Eg. destruct Eg as [-> Hans].
    assert (Huniq : forall data',
               answers n ("/movie/" ++ str_of_movie_id movie_id)
                       [("language", PStr "en-US")] data' -> data' = data).
    { intros data' (r' & Hr' & _ & Hj'). destruct Hans as (r & Hr & _ & Hj).
      congruence. }
    destruct (Json.id (Json.top data)) as [| |i] eqn:Ei; simpl;
      try (split; [discriminate|];
           intros (_ & data' & Ha & Hi & _); apply Huniq in Ha; subst;
           congruence).
    destruct (Json.title (Json.top data)) as [| |t] eqn:Et; simpl;
      try (split; [discriminate|];
           intros (_ & data' & Ha & _ & Ht & _); apply Huniq in Ha; subst;
           congruence).
    destruct (get_default (Json.genres (Json.top data)) []) as [g|] eqn:Egen; simpl.
    + split.
      * intros H. inversion H; subst. split; [reflexivity|].
        exists data. simpl. repeat split; auto.
      * intros (-> & data' & Ha & Hi & Ht & Hg & Ho & Hr & Hp & Hb).
        apply Huniq in Ha. subst data'.
        destruct d; simpl in *.
        rewrite Ei in Hi. rewrite Et in Ht. rewrite Egen in Hg.
        inversion Hi; inversion Ht; inversion Hg. now subst.
    + split; [discriminate|].
      intros (_ & data' & Ha & _ & _ & Hg & _). apply Huniq in Ha. subst.
      congruence.
  - split; [discriminate|].
    intros (-> & data & Ha & _).
    assert (Hok : tmdb_get ("/movie/" ++ str_of_movie_id movie_id)
                           [("language", PStr "en-US")] n = (Ok data, S n))
      by (apply tmdb_get_Ok; auto).
    congruence.
Qed.

(** X2. [GET /home] makes one catalog call, to [/trending/movie/day] for
    the category "trending" and to [/movie/<category>] for any other
    string.  It returns exactly when the catalog answers 200 with a JSON
    body whose first [limit] results all carry an [id]; the cards are those
    results in the catalog's order, none when the body has no [results],
    and at most [limit] for [limit >= 0].  It never raises a 404: any
    other status of the catalog gives 502. *)
Theorem home_spec (category : string) (limit : Z) (n : nat) :
  snd (home category limit n) = S n /\
  (forall cards n',
      home category limit n = (Ok cards, n') <->
      n' = S n /\
      exists data,
        answers n (home_path category) [("language", PStr "en-US")] data /\
        Forall2 shows (slice_to (results_of data) limit) cards) /\
  (forall cards n',
      home category limit n = (Ok cards, n') ->
      0 <= limit -> Z.of_nat (List.length cards) <= limit) /\
  (forall r,
      client_get n (TMDB_BASE ++ home_path category)
                 (Dict.set [("language", PStr "en-US")] "api_key"
                           (PStr TMDB_API_KEY)) = Some r ->
      status_code r <> 200 ->
      home category limit n =
        (Raise (HTTPException 502 ("TMDB error " ++ str_of_int (status_code r))),
         S n)) /\
  (forall e n', home category limit n = (Raise e, n') -> not_found e = false).
Proof.
  assert (Hhome : home category limit n =
                  (data <- tmdb_get (home_path category)
                                    [("language", PStr "en-US")] ;;
                   lift (tmdb_cards_from_results
                           (get_default (Json.results data) []) limit))%M n).
  { unfold home, home_path, bind. now destruct (String.eqb category "trending"). }
  rewrite Hhome. clear Hhome. unfold bind, lift.
  pose proof (tmdb_get_calls_once (home_path category)
                [("language", PStr "en-US")] n) as Hc.
  destruct (tmdb_get _ _ n) as [[data|e] n1] eqn:Eg; simpl in Hc; subst n1.
  - pose proof (proj2 (proj1 (tmdb_get_Ok _ _ _ _ _) Eg)) as Hans.
    assert (Huniq : forall data',
               answers n (home_path category) [("language", PStr "en-US")] data' ->
               data' = data).
    { intros data' (r' & Hr' & _ & Hj'). destruct Hans as (r & Hr & _ & Hj).
      congruence. }
    pose proof (tmdb_cards_from_results_Ok
                  (get_default (Json.results data) []) limit) as Hok.
    fold (results_of data) in Hok.
    split; [now destruct (tmdb_cards_from_results _ limit)|].
    split; [|split; [|split]].
    + intros cards n'. split.
      * intros H.
        destruct (tmdb_cards_from_results _ limit) as [cs|e] eqn:Ec;
          inversion H; subst.
        split; [reflexivity|]. exists data. split; [exact Hans|].
        now apply Hok.
      * intros (-> & data' & Ha & Hshow). apply Huniq in Ha. subst data'.
        apply Hok in Hshow. now rewrite Hshow.
    + intros cards n' H Hlimit.
      destruct (tmdb_cards_from_results _ limit) as [cs|e] eqn:Ec;
        inversion H; subst.
      eapply tmdb_cards_from_results_length; eauto.
    + intros r Hr Hs. pose proof (tmdb_get_status _ _ _ Hr Hs) as Hg.
      congruence.
    + intros e n' H.
      destruct (tmdb_cards_from_results _ limit) as [cs|e'] eqn:Ec;
        inversion H; subst.
      eapply tmdb_cards_from_results_raises; eauto.
  - split; [reflexivity|]. split; [|split; [|split]].
    + intros cards n'. split; [discriminate|].
      intros (-> & data & Ha & _).
      assert (Hok : tmdb_get (home_path category) [("language", PStr "en-US")] n =
                    (Ok data, S n)) by (apply tmdb_get_Ok; auto).
      congruence.
    + discriminate.
    + intros r Hr Hs. pose proof (tmdb_get_status _ _ _ Hr Hs) as Hg.
      congruence.
    + intros e' n' H. inversion H; subst. eapply tmdb_get_raises; eauto.
Qed.

(** X3. [GET /movie/id/{tmdb_id}] makes one catalog call, to
    [/movie/<tmdb_id>].  It returns exactly when the catalog answers 200
    with a JSON body that has an [id] and a [title] and whose [genres] is
    not [null]; the details carry those, the genres of the body (none when
    the key is missing) and the image URLs.  It never raises a 404: for an
    id the catalog does not know (status 404) it raises 502. *)
Theorem movie_details_route_spec (tmdb_id : Z) (n : nat) :
  snd (movie_details_route tmdb_id n) = S n /\
  (forall d n',
      movie_details_route tmdb_id n = (Ok d, n') <->
      n' = S n /\
      exists data,
        answers n ("/movie/" ++ str_of_int tmdb_id)
                [("language", PStr "en-US")] data /\
        describes (Json.top data) d) /\
  (forall r,
      client_get n (TMDB_BASE ++ "/movie/" ++ str_of_int tmdb_id)
                 (Dict.set [("language", PStr "en-US")] "api_key"
                           (PStr TMDB_API_KEY)) = Some r ->
      status_code r <> 200 ->
      movie_details_route tmdb_id n =
        (Raise (HTTPException 502 ("TMDB error " ++ str_of_int (status_code r))),
         S n)) /\
  (forall e n',
      movie_details_route tmdb_id n = (Raise e, n') -> not_found e = false).
Proof.
  unfold movie_details_route.
  split; [apply tmdb_movie_details_calls_once|].
  split; [|split].
  - intros d n'. apply (tmdb_movie_details_Ok (Some tmdb_id)).
  - intros r Hr Hs. unfold tmdb_movie_details, bind. simpl str_of_movie_id.
    now rewrite (tmdb_get_status _ _ _ Hr Hs).
  - intros e n'. apply tmdb_movie_details_raises.
Qed.

Lemma attach_tmdb_card_by_title_unfold (title : string) (n : nat) :
  attach_tmdb_card_by_title title n =
  match tmdb_search_first title n with
  | (Ok (Some m), n') =>
      match getitem (Json.id m), get (Json.title m) with
      | Ok (Some i), Some t =>
          (Ok (Some {| TMDBMovieCard.tmdb_id := i;
                       TMDBMovieCard.title := t;
                       TMDBMovieCard.poster_url :=
                         make_img_url (get (Json.poster_path m));
                       TMDBMovieCard.release_date := get (Json.release_date m);
                       TMDBMovieCard.vote_average := get (Json.vote_average m) |}),
           n')
      | _, _ => (Ok None, n')
      end
  | (_, n') => (Ok None, n')
  end.
Proof.
  unfold attach_tmdb_card_by_title, try_except_M, bind.
  destruct (tmdb_search_first title n) as [[[m|]|e] n']; try reflexivity.
  destruct (Json.empty m) eqn:Hempty.
  - destruct (getitem (Json.id m)) as [v|e] eqn:Hid; [|reflexivity].
    rewrite (getitem_id_not_empty _ Hid) in Hempty. discriminate.
  - unfold lift.
    destruct (Json.id m) as [| |i]; simpl; try reflexivity.
    destruct (Json.title m) as [| |t]; reflexivity.
Qed.

(** X4. The enrichment call returns a card exactly when the catalog search
    for the title succeeds and its first result has an [id] and a [title]
    that are not [null]; the card carries them, with the poster URL, the
    release date and the rating of that result. *)
Theorem attach_tmdb_card_by_title_Some (title : string) (n n' : nat)
    (c : TMDBMovieCard.t) :
  attach_tmdb_card_by_title title n = (Ok (Some c), n') <->
  exists m,
    tmdb_search_first title n = (Ok (Some m), n') /\ enriches m c.
Proof.
  rewrite attach_tmdb_card_by_title_unfold. unfold enriches.
  destruct (tmdb_search_first title n) as [[[m|]|e] n1].
  - destruct (Json.id m) as [| |i] eqn:Ei; simpl;
      try (split; [discriminate|];
           intros (m' & Hm & Hi & _); inversion Hm; subst; congruence).
    destruct (Json.title m) as [| |t] eqn:Et; simpl;
      try (split; [discriminate|];
           intros (m' & Hm & _ & Ht & _); inversion Hm; subst; congruence).
    split.
    + intros H. inversion H; subst. exists m. simpl. repeat split; auto.
    + intros (m' & Hm & Hi & Ht & Hp & Hr & Hv). inversion Hm; subst.
      rewrite Ei in Hi. rewrite Et in Ht. inversion Hi; inversion Ht.
      destruct c; simpl in *. now subst.
  - split; [discriminate | intros (m & Hm & _); discriminate].
  - split; [discriminate | intros (m & Hm & _); discriminate].
Qed.
End Catalog.

(** ** Normal forms of titles *)

(** X5. [_norm_title] gives a normal form: applying [strip], [lower] or
    [_norm_title] again changes nothing, and titles that differ only in
    case or in surrounding blanks have the same normal form. *)
Theorem _norm_title_normal_form (t : string) :
  _norm_title (_norm_title t) = _norm_title t /\
  strip (_norm_title t) = _norm_title t /\
  lower (_norm_title t) = _norm_title t /\
  _norm_title (strip t) = _norm_title t /\
  _norm_title (lower t) = _norm_title t.
Proof.
  unfold _norm_title. repeat split.
  - now rewrite strip_lower, lower_idempotent, strip_idempotent.
  - now rewrite strip_lower, strip_idempotent.
  - apply lower_idempotent.
  - now rewrite strip_idempotent.
  - now rewrite strip_lower, lower_idempotent.
Qed.

(** ** The resolver on a loaded index *)

Section ResolverOutcomes.
Context {F : Float} {N : Numpy}.

Lemma get_local_idx_by_title_of_get (G : Globals) (D : Difflib)
    (d : Dict.t Z) (title : string) (row : Z) :
  TITLE_TO_IDX = Some d ->
  Dict.get d (_norm_title title) = Some row ->
  get_local_idx_by_title title = Ok row.
Proof.
  intros Hd Hrow. unfold get_local_idx_by_title.
  rewrite Hd. unfold Dict.contains, Dict.getitem. now rewrite Hrow.
Qed.

(** X6. After [load_pickles], a title of the pickled index resolves to the
    row the index gives it, whatever the fuzzy matcher, provided no later
    entry of the index has the same normal form. *)
Theorem load_pickles_resolves (D : Difflib) (df_pkl : list string)
    (indices : list (string * Z)) (tfidf_matrix_pkl : list vec)
    (before after : list (string * Z)) (k : string) (v : Z) :
  indices = (before ++ (k, v) :: after)%list ->
  (forall k' v', In (k', v') after -> _norm_title k' <> _norm_title k) ->
  get_local_idx_by_title (G := load_pickles df_pkl indices tfidf_matrix_pkl) k =
    Ok v.
Proof.
  intros -> Hafter.
  apply get_local_idx_by_title_of_get
    with (d := build_title_to_idx_map (before ++ (k, v) :: after)).
  - reflexivity.
  - unfold build_title_to_idx_map. now apply fold_step_get_last.
Qed.

Context {G : Globals} {D : Difflib} {DL : DifflibLaws}.

(** X7. The resolver before start-up raises [TypeError].  On a loaded
    index it either returns the row of a key, which is the normal form of
    the title or, when that is not a key, a key whose ratio to it reaches
    the cutoff; or it raises [HTTPException] 404, which happens exactly
    when the normal form is not a key and no key reaches the cutoff.  It
    never raises [KeyError]. *)
Theorem get_local_idx_by_title_outcomes (title : string) :
  (TITLE_TO_IDX = None -> get_local_idx_by_title title = Raise TypeError) /\
  (forall d,
      TITLE_TO_IDX = Some d ->
      (exists key row,
          get_local_idx_by_title title = Ok row /\
          Dict.get d key = Some row /\
          (key = _norm_title title \/
           (~ In (_norm_title title) (Dict.keys d) /\
            ratio_ge_cutoff key (_norm_title title) = true))) \/
      (get_local_idx_by_title title =
         Raise (HTTPException 404 "Title not in dataset") /\
       ~ In (_norm_title title) (Dict.keys d) /\
       forall key, In key (Dict.keys d) ->
                   ratio_ge_cutoff key (_norm_title title) = false)).
Proof.
  split.
  - intros Hd. unfold get_local_idx_by_title. now rewrite Hd.
  - intros d Hd. unfold get_local_idx_by_title, get_best_local_title.
    rewrite Hd. unfold Dict.contains, Dict.getitem.
    destruct (Dict.get d (_norm_title title)) as [row|] eqn:Hexact.
    + left. exists (_norm_title title), row. auto.
    + assert (Hnew : ~ In (_norm_title title) (Dict.keys d)).
      { intros Hin. apply DictFacts.get_Some_keys in Hin.
        destruct Hin as [v Hv]. congruence. }
      simpl.
      destruct (get_close_matches (_norm_title title) (Dict.keys d))
        as [|m ms] eqn:Em.
      * right. repeat split; auto.
        intros key Hkey.
        destruct (ratio_ge_cutoff key (_norm_title title)) eqn:Er; auto.
        exfalso. now apply (get_close_matches_complete _ _ _ Hkey Er).
      * destruct (get_close_matches_sound (_norm_title title) (Dict.keys d) m)
          as [Hm Hr]; [rewrite Em; now left|].
        destruct m as [|c m].
        -- apply ratio_empty in Hr. rewrite Hr in Hnew. contradiction.
        -- simpl. apply DictFacts.get_Some_keys in Hm. destruct Hm as [row Hrow].
           left. exists (String c m), row. rewrite Hrow. auto.
Qed.
End ResolverOutcomes.

(** ** The ranker on a loaded index *)

Section RankerMore.
Context {F : Float} {N : Numpy} {G : Globals} {D : Difflib}.

Lemma filter_length_perm {A} (f : A -> bool) (l l' : list A) :
  Permutation l l' ->
  List.length (filter f l) = List.length (filter f l').
Proof.
  induction 1 as [|x l l' _ IH|x y l|l l' l'' _ IH1 _ IH2]; simpl.
  - reflexivity.
  - destruct (f x); simpl; now rewrite IH.
  - destruct (f x), (f y); reflexivity.
  - now rewrite IH1.
Qed.

Lemma others_seq_length (idx : Z) (len start : nat) :
  List.length (others idx (seq start len)) =
  if (Z.of_nat start <=? idx) && (idx <? Z.of_nat (start + len))
  then (len - 1)%nat else len.
Proof.
  revert start. induction len as [|len IH]; intros start.
  - simpl.
    destruct (Z.leb_spec (Z.of_nat start) idx), (Z.ltb_spec idx (Z.of_nat (start + 0)));
      simpl; reflexivity.
  - change (others idx (seq start (S len))) with
      (if negb (Z.of_nat start =? idx)
       then start :: others idx (seq (S start) len)
       else others idx (seq (S start) len)).
    destruct (Z.eqb_spec (Z.of_nat start) idx) as [Heq|Hne]; simpl negb; cbv iota;
      simpl List.length; rewrite (IH (S start));
      destruct (Z.leb_spec (Z.of_nat (S start)) idx),
               (Z.ltb_spec idx (Z.of_nat (S start + len))),
               (Z.leb_spec (Z.of_nat start) idx),
               (Z.ltb_spec idx (Z.of_nat (start + S len))); simpl; lia.
Qed.

Lemma others_length (idx : Z) (n : nat) (order : list nat) :
  Permutation order (seq 0 n) ->
  0 <= idx < Z.of_nat n ->
  List.length (others idx order) = (n - 1)%nat.
Proof.
  intros Hperm Hidx. unfold others.
  rewrite (filter_length_perm _ Hperm).
  change (List.length (others idx (seq 0 n)) = (n - 1)%nat).
  rewrite others_seq_length. simpl.
  destruct (Z.leb_spec 0 idx), (Z.ltb_spec idx (Z.of_nat n)); simpl; lia.
Qed.

Lemma NoDup_firstn {A} (k : nat) (l : list A) : NoDup l -> NoDup (firstn k l).
Proof.
  intros ND. rewrite <- (firstn_skipn k l) in ND.
  now apply NoDup_app_remove_r in ND.
Qed.

Lemma StronglySorted_app_inv {A} (R : A -> A -> Prop) (l1 l2 : list A) :
  StronglySorted R (l1 ++ l2) ->
  forall a b, In a l1 -> In b l2 -> R a b.
Proof.
  induction l1 as [|x l1 IH]; simpl; intros HS a b Ha Hb; [contradiction|].
  inversion HS as [|? ? HS' Hall]; subst.
  destruct Ha as [<-|Ha].
  - apply (proj1 (Forall_forall _ _) Hall). apply in_or_app. now right.
  - now apply IH.
Qed.

Context {NL : NumpyLaws} {FL : FloatLaws}.

(** X8. On a loaded index whose row table and matrix have the same number
    of rows, for a title that resolves to a row id [idx] and [top_n >= 1],
    the ranker returns the entries (title and score) of
    [min(top_n, rows - 1)] distinct rows other than [idx], in descending
    order of score, and they are the most similar ones: no other row than
    [idx] left out has a score above that of a listed row. *)
Theorem tfidf_recommend_titles_top (title : string) (top_n idx : Z)
    (m : list vec) (titles : list string) :
  get_local_idx_by_title title = Ok idx ->
  tfidf_matrix = Some m ->
  df = Some titles ->
  List.length titles = List.length m ->
  0 <= idx < Z.of_nat (List.length m) ->
  1 <= top_n ->
  exists qv rows,
    getrow m idx = Ok qv /\
    tfidf_recommend_titles title top_n =
      Ok (map (entry titles (scores_of m qv)) rows) /\
    List.length rows = Nat.min (Z.to_nat top_n) (List.length m - 1) /\
    NoDup rows /\
    Forall (fun i => (i < List.length m)%nat /\ Z.of_nat i <> idx) rows /\
    StronglySorted
      (fun i j => float_le (nth j (scores_of m qv) float_zero)
                           (nth i (scores_of m qv) float_zero)) rows /\
    (forall i j,
        In i rows -> (j < List.length m)%nat -> Z.of_nat j <> idx ->
        ~ In j rows ->
        float_le (nth j (scores_of m qv) float_zero)
                 (nth i (scores_of m qv) float_zero)).
Proof.
  intros Hres Hm Hdf Hlen Hidx Htop.
  destruct (tfidf_recommend_titles_spec title top_n Hres Hm Hdf Hlen Hidx)
    as (qv & Hqv & Hout).
  set (scores := scores_of m qv) in *.
  set (order := argsort (map float_neg scores)) in *.
  assert (Hn : List.length (map float_neg scores) = List.length m)
    by (subst scores; unfold scores_of; now rewrite !length_map).
  assert (Hperm : Permutation order (seq 0 (List.length m)))
    by (rewrite <- Hn; apply argsort_perm).
  assert (Hsorted : StronglySorted
                      (fun i j => float_le (nth j scores float_zero)
                                           (nth i scores float_zero))
                      (others idx order))
    by (apply StronglySorted_filter, argsort_neg_descending).
  exists qv, (firstn (quota top_n 0) (others idx order)).
  split; [exact Hqv|]. split; [exact Hout|].
  rewrite quota_0. replace (Z.max 1 top_n) with top_n by lia.
  split; [|split; [|split; [|split]]].
  - rewrite length_firstn, (@others_length idx _ _ Hperm Hidx). reflexivity.
  - apply NoDup_firstn, NoDup_filter.
    apply (Permutation_NoDup (Permutation_sym Hperm)), seq_NoDup.
  - apply Forall_forall. intros i Hi.
    assert (Hin : In i (others idx order)).
    { rewrite <- (firstn_skipn (Z.to_nat top_n) (others idx order)).
      apply in_or_app. now left. }
    apply filter_In in Hin. destruct Hin as [Hin Hne].
    apply (Permutation_in _ Hperm), in_seq in Hin. split; lia.
  - now apply StronglySorted_firstn.
  - intros i j Hi Hj Hne Hout'.
    rewrite <- (firstn_skipn (Z.to_nat top_n) (others idx order)) in Hsorted.
    apply (StronglySorted_app_inv _ _ Hsorted); [exact Hi|].
    assert (Hin : In j (others idx order)).
    { apply filter_In. split.
      - apply (Permutation_in _ (Permutation_sym Hperm)), in_seq. lia.
      - apply negb_true_iff, Z.eqb_neq. exact Hne. }
    rewrite <- (firstn_skipn (Z.to_nat top_n) (others idx order)) in Hin.
    apply in_app_or in Hin. destruct Hin; [contradiction | assumption].
Qed.
End RankerMore.

Section RankerErrors.
Context {F : Float} {N : Numpy} {G : Globals} {D : Difflib}.

(** X9. The ranker raises what the resolver raises (so [TypeError] before
    start-up and [HTTPException] 404 for a title the index does not
    know).  For a title that resolves, it raises [TypeError] when the
    matrix is not loaded and [IndexError] when the index gives a row
    outside the matrix, that is below [-rows] or at [rows] and above. *)
Theorem tfidf_recommend_titles_errors (title : string) (top_n : Z) :
  (forall e, get_local_idx_by_title title = Raise e ->
             tfidf_recommend_titles title top_n = Raise e) /\
  (forall idx, get_local_idx_by_title title = Ok idx ->
               tfidf_matrix = None ->
               tfidf_recommend_titles title top_n = Raise TypeError) /\
  (forall idx m, get_local_idx_by_title title = Ok idx ->
                 tfidf_matrix = Some m ->
                 idx < - Z.of_nat (List.length m) \/ Z.of_nat (List.length m) <= idx ->
                 tfidf_recommend_titles title top_n = Raise IndexError).
Proof.
  unfold tfidf_recommend_titles. repeat split.
  - intros e ->. reflexivity.
  - intros idx -> ->. reflexivity.
  - intros idx m -> -> Hout. simpl. unfold getrow.
    destruct (idx <? 0) eqn:Eneg.
    + replace ((0 <=? idx + Z.of_nat (List.length m)) &&
               (idx + Z.of_nat (List.length m) <? Z.of_nat (List.length m)))%bool
        with false by lia.
      reflexivity.
    + replace ((0 <=? idx) && (idx <? Z.of_nat (List.length m)))%bool
        with false by lia.
      reflexivity.
Qed.
End RankerErrors.

(** ** More on the orchestrator *)

Section OrchestratorMore.
Context {F : Float} {N : Numpy} {G : Globals} {E : Env} {X : Httpx}
        {D : Difflib}.

Lemma rank_loop_length (idx top_n : Z) (scores : list float)
    (order : list nat) (out out' : list (string * float)) :
  rank_loop idx top_n scores order out = Ok out' ->
  out' = out \/
  Z.of_nat (List.length out') <= Z.max (Z.of_nat (List.length out) + 1) top_n.
Proof.
  revert out. induction order as [|i order IH]; intros out; simpl.
  - intros H. inversion H. now left.
  - destruct (Z.of_nat i =? idx); [apply IH|].
    destruct (iloc_title i) as [t|e]; simpl; [|discriminate].
    destruct (score_at scores i) as [s|e]; simpl; [|discriminate].
    destruct (Z.of_nat (List.length (out ++ [(t, s)])) >=? top_n) eqn:Efull;
      rewrite Z.geb_leb in Efull.
    + intros H. inversion H; subst. right.
      rewrite length_app. simpl. lia.
    + apply Z.leb_gt in Efull. intros H. apply IH in H. right.
      assert (Hl : List.length (out ++ [(t, s)]) = S (List.length out))
        by (rewrite length_app; simpl; lia).
      clear IH. destruct H as [->|H]; rewrite Hl in *; lia.
Qed.

Lemma local_similarity_length (title : string) (tfidf_top_n : Z) :
  Z.of_nat (List.length (local_similarity title tfidf_top_n)) <=
  Z.max 1 tfidf_top_n.
Proof.
  unfold local_similarity, try_except, tfidf_recommend_titles.
  destruct (get_local_idx_by_title title) as [idx|e]; simpl; [|lia].
  destruct (match tfidf_matrix with Some m => getrow m idx | None => _ end)
    as [qv|e]; simpl; [|lia].
  destruct (rank_loop _ _ _ _ []) as [out|e] eqn:Eloop; simpl; [|lia].
  apply rank_loop_length in Eloop. destruct Eloop as [->|H]; simpl in *; lia.
Qed.

Lemma genre_discovery_calls (details : TMDBMovieDetails.t) (genre_limit : Z)
    (n : nat) :
  (n <= snd (genre_discovery details genre_limit n) <= S n)%nat /\
  (forall cards n',
      genre_discovery details genre_limit n = (Ok cards, n') ->
      n' = match TMDBMovieDetails.genres details with
           | [] => n
           | _ :: _ => S n
           end).
Proof.
  unfold genre_discovery.
  destruct (TMDBMovieDetails.genres details) as [|g gs].
  - simpl. split; [lia|]. intros cards n' H. now inversion H.
  - unfold bind, lift.
    destruct (getitem (Json.genre_id g)) as [gid|e].
    + pose proof (tmdb_get_calls_once "/discover/movie"
                    [("with_genres", param_of_id gid);
                     ("sort_by", PStr "popularity.desc")] n) as Hc.
      destruct (tmdb_get _ _ n) as [[d|e] n1]; simpl in Hc; subst n1.
      * split; [simpl; lia|]. intros cards n' H. now inversion H.
      * split; [simpl; lia|]. discriminate.
    + split; [simpl; lia|]. discriminate.
Qed.

(** X10. A call of [search_bundle] makes at least one catalog call and at
    most [3 + max(1, tfidf_top_n)].  A call that returns has made two
    calls (search, details), one enrichment call for each similarity hit,
    and one discovery call when the details carry a genre. *)
Theorem search_bundle_calls (query : string) (tfidf_top_n genre_limit : Z)
    (n : nat) :
  (n < snd (search_bundle query tfidf_top_n genre_limit n) <=
   n + 3 + Z.to_nat (Z.max 1 tfidf_top_n))%nat /\
  (forall b n',
      search_bundle query tfidf_top_n genre_limit n = (Ok b, n') ->
      n' = (n + 2
            + List.length
                (local_similarity
                   (TMDBMovieDetails.title (SearchBundleResponse.movie_details b))
                   tfidf_top_n)
            + match TMDBMovieDetails.genres (SearchBundleResponse.movie_details b) with
              | [] => 0
              | _ :: _ => 1
              end)%nat).
Proof.
  split.
  - destruct (search_bundle query tfidf_top_n genre_limit n) as [r n'] eqn:Hrun.
    cbn [snd]. rewrite search_bundle_steps in Hrun. unfold bind at 1 in Hrun.
    pose proof (tmdb_search_first_calls_once query n) as Hs.
    destruct (tmdb_search_first query n) as [[[best|]|e] n1]; cbn [snd] in Hs;
      subst n1; try (inversion Hrun; lia).
    destruct (Json.empty best); [inversion Hrun; lia|].
    unfold bind at 1, lift at 1 in Hrun.
    destruct (getitem (Json.id best)) as [movie_id|e]; [|inversion Hrun; lia].
    unfold bind at 1 in Hrun.
    pose proof (tmdb_movie_details_calls_once movie_id (S n)) as Hd.
    destruct (tmdb_movie_details movie_id (S n)) as [[details|e] n2];
      cbn [snd] in Hd; subst n2; [|inversion Hrun; lia].
    unfold bind at 1 in Hrun.
    destruct (enrich_returns
                (local_similarity (TMDBMovieDetails.title details) tfidf_top_n)
                (S (S n))) as (items & He & _).
    rewrite He in Hrun.
    pose proof (local_similarity_length (TMDBMovieDetails.title details)
                  tfidf_top_n) as Hl.
    unfold bind at 1 in Hrun.
    pose proof (proj1 (genre_discovery_calls details genre_limit
                         (S (S n) + List.length
                            (local_similarity (TMDBMovieDetails.title details)
                               tfidf_top_n)))) as Hg.
    destruct (genre_discovery details genre_limit _) as [[genre_recs|e] n4];
      cbn [snd] in Hg; inversion Hrun; subst; lia.
  - intros b n' Hrun.
    destruct (search_bundle_Ok _ _ _ _ Hrun)
      as (best & movie_id & details & n1 & n2 & items & n3 & genre_recs
          & Hs & Hid & Hd & Henrich & Hg & ->).
    simpl.
    pose proof (tmdb_search_first_calls_once query n) as Hs1.
    rewrite Hs in Hs1. simpl in Hs1. subst n1.
    pose proof (tmdb_movie_details_calls_once movie_id (S n)) as Hd1.
    rewrite Hd in Hd1. simpl in Hd1. subst n2.
    destruct (enrich_returns
                (local_similarity (TMDBMovieDetails.title details) tfidf_top_n)
                (S (S n))) as (items' & He & _).
    rewrite Henrich in He. inversion He; subst.
    apply (proj2 (genre_discovery_calls details genre_limit _)) in Hg.
    rewrite Hg. destruct (TMDBMovieDetails.genres details); lia.
Qed.

Lemma enrich_nth (recs : list (string * float)) (n n' : nat)
    (items : list TFIDFRecItem.t) (i : nat) (t : string) (s : float) :
  enrich recs n = (Ok items, n') ->
  nth_error recs i = Some (t, s) ->
  exists card,
    attach_tmdb_card_by_title t (n + i)%nat = (Ok card, S (n + i)) /\
    nth_error items i =
      Some {| TFIDFRecItem.title := t;
              TFIDFRecItem.score := s;
              TFIDFRecItem.tmdb := card |}.
Proof.
  revert n items i. induction recs as [|[t0 s0] recs IH]; intros n items i.
  - destruct i; discriminate.
  - unfold enrich. simpl. unfold bind at 1 2.
    destruct (attach_tmdb_card_by_title_returns t0 n) as [card Hc].
    rewrite Hc. unfold ret at 1. unfold bind at 1. fold (enrich recs).
    destruct (enrich recs (S n)) as [[items'|e] n1] eqn:He; [|discriminate].
    unfold ret. intros H. inversion H; subst. clear H.
    destruct i as [|i]; simpl.
    + intros Ht. inversion Ht; subst. exists card.
      rewrite Nat.add_0_r. auto.
    + intros Ht. destruct (IH _ _ _ He Ht) as (card' & Hc' & Hnth).
      exists card'. replace (n + S i)%nat with (S n + i)%nat by lia. auto.
Qed.

(** X11. When the similarity step gives hits, the returned similarity list
    is made of them and not of genre cards: one item for each hit, in the
    ranker's order, with its title and score, and as enrichment what the
    enrichment call gives for that title; the hit at position [i] is
    enriched by the call after the two opening calls and the [i] earlier
    enrichment calls. *)
Theorem search_bundle_local_hits (query : string)
    (tfidf_top_n genre_limit : Z) (n n' : nat) (b : SearchBundleResponse.t) :
  search_bundle query tfidf_top_n genre_limit n = (Ok b, n') ->
  local_similarity
    (TMDBMovieDetails.title (SearchBundleResponse.movie_details b))
    tfidf_top_n <> [] ->
  List.length (SearchBundleResponse.tfidf_recommendations b) =
    List.length
      (local_similarity
         (TMDBMovieDetails.title (SearchBundleResponse.movie_details b))
         tfidf_top_n) /\
  (forall i t s,
      nth_error
        (local_similarity
           (TMDBMovieDetails.title (SearchBundleResponse.movie_details b))
           tfidf_top_n) i = Some (t, s) ->
      exists card,
        attach_tmdb_card_by_title t (n + 2 + i)%nat =
          (Ok card, S (n + 2 + i)) /\
        nth_error (SearchBundleResponse.tfidf_recommendations b) i =
          Some {| TFIDFRecItem.title := t;
                  TFIDFRecItem.score := s;
                  TFIDFRecItem.tmdb := card |}).
Proof.
  intros Hrun Hhits.
  destruct (search_bundle_Ok _ _ _ _ Hrun)
    as (best & movie_id & details & n1 & n2 & items & n3 & genre_recs
        & Hs & Hid & Hd & Henrich & Hg & ->).
  simpl in *.
  pose proof (tmdb_search_first_calls_once query n) as Hs1.
  rewrite Hs in Hs1. simpl in Hs1. subst n1.
  pose proof (tmdb_movie_details_calls_once movie_id (S n)) as Hd1.
  rewrite Hd in Hd1. simpl in Hd1. subst n2.
  assert (Hitems : items <> [])
    by (intros Hnil; apply Hhits; now apply (enrich_nil _ _ Henrich)).
  assert (Hfb : fallback items genre_recs tfidf_top_n = items)
    by (unfold fallback; destruct items; [contradiction | reflexivity]).
  rewrite Hfb. split.
  - destruct (enrich_returns
                (local_similarity (TMDBMovieDetails.title details) tfidf_top_n)
                (S (S n))) as (items' & He & Ht & _).
    rewrite Henrich in He. inversion He; subst.
    rewrite <- (length_map TFIDFRecItem.title), Ht. apply length_map.
  - intros i t s Hnth.
    edestruct enrich_nth as (card & Hc & Hi); [exact Henrich | exact Hnth |].
    exists card. replace (n + 2 + i)%nat with (S (S n) + i)%nat by lia. auto.
Qed.

(** X12. The guaranteed fallback: for [tfidf_top_n >= 1], the similarity
    list of a returned bundle is empty exactly when the similarity step
    gave no hit and genre discovery gave no card.  So whenever there is a
    genre card there is a similarity item. *)
Theorem search_bundle_never_empty_handed (query : string)
    (tfidf_top_n genre_limit : Z) (n n' : nat) (b : SearchBundleResponse.t) :
  search_bundle query tfidf_top_n genre_limit n = (Ok b, n') ->
  1 <= tfidf_top_n ->
  (SearchBundleResponse.tfidf_recommendations b = [] <->
   local_similarity
     (TMDBMovieDetails.title (SearchBundleResponse.movie_details b))
     tfidf_top_n = [] /\
   SearchBundleResponse.genre_recommendations b = []).
Proof.
  intros Hrun Htop.
  destruct (search_bundle_Ok _ _ _ _ Hrun)
    as (best & movie_id & details & n1 & n2 & items & n3 & genre_recs
        & Hs & Hid & Hd & Henrich & Hg & ->).
  simpl. rewrite <- (enrich_nil _ _ Henrich). unfold fallback.
  destruct items as [|item items].
  - destruct genre_recs as [|c cs].
    + tauto.
    + rewrite slice_to_nonneg by lia.
      destruct (Z.to_nat tfidf_top_n) as [|k] eqn:Ek; [lia|]. simpl.
      split; [discriminate | intros [_ H]; discriminate].
  - split; [discriminate | intros [H _]; discriminate].
Qed.

(** X13. Genre discovery is not best-effort: when the catalog resolution
    and the details fetch succeed and genre discovery raises, after the
    enrichment calls, [search_bundle] raises the same exception, whatever
    the similarity step found. *)
Theorem search_bundle_genre_failure (query : string)
    (tfidf_top_n genre_limit : Z) (n n1 n2 n' : nat) best movie_id details e :
  tmdb_search_first query n = (Ok (Some best), n1) ->
  getitem (Json.id best) = Ok movie_id ->
  tmdb_movie_details movie_id n1 = (Ok details, n2) ->
  genre_discovery details genre_limit
    (n2 + List.length
            (local_similarity (TMDBMovieDetails.title details) tfidf_top_n))%nat =
    (Raise e, n') ->
  search_bundle query tfidf_top_n genre_limit n = (Raise e, n').
Proof.
  intros Hs Hid Hd Hg.
  rewrite (search_bundle_resolved _ _ _ _ Hs Hid Hd). unfold bind at 1.
  destruct (enrich_returns
              (local_similarity (TMDBMovieDetails.title details) tfidf_top_n) n2)
    as (items & -> & _).
  unfold bind at 1. now rewrite Hg.
Qed.
End OrchestratorMore.

(** ** The front end: the cards of the similarity grid *)

Section FrontEnd.
Context {F : Float}.

Lemma tfidf_cards_loop_cons (x : App.item) (items : list App.item)
    (out : list App.card) :
  App.tfidf_cards_loop (x :: items) out =
  App.tfidf_cards_loop items
    (if App.enriched x then (out ++ [App.card_of x])%list else out).
Proof.
  unfold App.enriched, App.card_of. cbn [App.tfidf_cards_loop].
  destruct (get (App.tmdb x)) as [c|]; [|reflexivity].
  now destruct (App.int_truthy (get (App.tmdb_id c))).
Qed.

Lemma tfidf_cards_loop_spec (items : list App.item) (out : list App.card) :
  App.tfidf_cards_loop items out =
  (out ++ map App.card_of (filter App.enriched items))%list.
Proof.
  revert out. induction items as [|x items IH]; intros out.
  - simpl. now rewrite app_nil_r.
  - rewrite tfidf_cards_loop_cons, IH. cbn [filter].
    destruct (App.enriched x); [|reflexivity].
    cbn [map]. now rewrite <- app_assoc.
Qed.

(** X14. [tfidf_cards] keeps, in their order, exactly the items that carry
    a card with a [tmdb_id] other than 0 and [None]; an item without
    enrichment gives no card, and [None] instead of a list gives the empty
    list.  Each card it makes has that [tmdb_id] and always has the keys
    [title] and [poster_url], [None] standing for a missing value. *)
Theorem tfidf_cards_spec (items : option (list App.item)) :
  App.tfidf_cards items =
    map App.card_of (filter App.enriched (or_empty items)) /\
  (List.length (App.tfidf_cards items) <= List.length (or_empty items))%nat /\
  Forall (fun c => (exists n, App.tmdb_id c = Val n /\ n <> 0) /\
                   App.title c <> Missing /\ App.poster_url c <> Missing)
         (App.tfidf_cards items).
Proof.
  assert (Hspec : App.tfidf_cards items =
                  map App.card_of (filter App.enriched (or_empty items)))
    by (unfold App.tfidf_cards; now rewrite tfidf_cards_loop_spec).
  rewrite Hspec. split; [reflexivity|]. split.
  - rewrite length_map. apply filter_length_le.
  - apply Forall_map, Forall_forall. intros x Hx.
    apply filter_In in Hx. destruct Hx as [_ He].
    unfold App.enriched, App.card_of in *.
    destruct (get (App.tmdb x)) as [c|]; [|discriminate]. simpl.
    destruct (App.tmdb_id c) as [| |z]; simpl in He; try discriminate.
    repeat split.
    + exists z. split; [reflexivity|]. apply negb_true_iff, Z.eqb_neq in He. exact He.
    + destruct (get (App.title c)); discriminate.
    + destruct (get (App.poster_url c)); discriminate.
Qed.

Lemma card_of_item_json (x : TFIDFRecItem.t) (c : TMDBMovieCard.t) :
  TFIDFRecItem.tmdb x = Some c ->
  App.card_of (App.item_json x) = App.card_json c.
Proof.
  intros Hc. unfold App.card_of, App.item_json. simpl. rewrite Hc. simpl.
  unfold App.card_json. f_equal.
  now destruct (TMDBMovieCard.poster_url c).
Qed.

Lemma tfidf_cards_item_json (items : list TFIDFRecItem.t) :
  App.tfidf_cards (Some (map App.item_json items)) =
  map App.card_json (filter App.has_nonzero_id (App.enrichments items)).
Proof.
  unfold App.tfidf_cards. rewrite tfidf_cards_loop_spec. simpl.
  induction items as [|x items IH]; simpl; [reflexivity|].
  rewrite filter_app, map_app, <- IH.
  unfold App.enriched at 1. simpl.
  destruct (TFIDFRecItem.tmdb x) as [c|] eqn:Ec; simpl.
  - unfold App.has_nonzero_id.
    destruct (negb (TMDBMovieCard.tmdb_id c =? 0)); simpl; [|reflexivity].
    f_equal. now apply card_of_item_json.
  - reflexivity.
Qed.
End FrontEnd.

Section FrontEndOfBundle.
Context {F : Float} {N : Numpy} {G : Globals} {E : Env} {X : Httpx}
        {D : Difflib}.

(** X15. What the "Similar Movies" grid gets of a bundle sent as JSON:
    [tfidf_cards] gives the cards of the enriched items whose id is not 0,
    in order, so a similarity hit whose enrichment failed is not shown.
    When the fallback has fired (no similarity hit, at least one genre
    card, [tfidf_top_n >= 0]) these are the first [tfidf_top_n] genre
    cards whose id is not 0. *)
Theorem tfidf_cards_of_bundle (query : string) (tfidf_top_n genre_limit : Z)
    (n n' : nat) (b : SearchBundleResponse.t) :
  search_bundle query tfidf_top_n genre_limit n = (Ok b, n') ->
  App.tfidf_cards
    (Some (map App.item_json (SearchBundleResponse.tfidf_recommendations b))) =
    map App.card_json
        (filter App.has_nonzero_id
                (App.enrichments (SearchBundleResponse.tfidf_recommendations b))) /\
  (local_similarity
     (TMDBMovieDetails.title (SearchBundleResponse.movie_details b))
     tfidf_top_n = [] ->
   SearchBundleResponse.genre_recommendations b <> [] ->
   0 <= tfidf_top_n ->
   App.tfidf_cards
     (Some (map App.item_json (SearchBundleResponse.tfidf_recommendations b))) =
     map App.card_json
         (filter App.has_nonzero_id
                 (firstn (Z.to_nat tfidf_top_n)
                         (SearchBundleResponse.genre_recommendations b)))).
Proof.
  intros Hrun. split; [apply tfidf_cards_item_json|].
  intros Hlocal Hgenre Htop. rewrite tfidf_cards_item_json.
  destruct (search_bundle_Ok _ _ _ _ Hrun)
    as (best & movie_id & details & n1 & n2 & items & n3 & genre_recs
        & _ & _ & _ & Henrich & _ & ->).
  simpl in *.
  assert (Hitems : items = []) by (apply (enrich_nil _ _ Henrich); exact Hlocal).
  subst items. unfold fallback.
  destruct genre_recs as [|c cs]; [contradiction|].
  rewrite slice_to_nonneg by assumption.
  do 2 f_equal.
  induction (firstn (Z.to_nat tfidf_top_n) (c :: cs)) as [|c' l IH];
    simpl; [reflexivity | now rewrite IH].
Qed.
End FrontEndOfBundle.

(** ** The further statements on the concrete setting *)

Section MoreOnScenario.
Import Scenario ScenarioFacts ScenarioMore.

Local Abbreviation search2 :=
  (@search_bundle ZFloat StableNumpy Loaded TheEnv Catalog LcsDifflib).

(** The second of two results has no [id]: asking for both raises
    [KeyError]. *)
Lemma tmdb_cards_from_results_spec_witness :
  tmdb_cards_from_results (Some [movie 1 "Mad Max"; no_fields]) 5 =
    Raise KeyError.
Proof.
  apply (proj1 (proj2 (@tmdb_cards_from_results_spec ZFloat
                         (Some [movie 1 "Mad Max"; no_fields]) 5))).
  exists [movie 1 "Mad Max"], no_fields, [].
  split; [reflexivity|]. split.
  - constructor; [|constructor]. now exists 1.
  - left. split; reflexivity.
Defined.

(** Two of the three trending movies are asked for. *)
Lemma home_spec_witness :
  exists cards n',
    @home ZFloat TheEnv Catalog2 "trending" 2 0%nat = (Ok cards, n') /\
    Z.of_nat (List.length cards) <= 2.
Proof.
  destruct (@home ZFloat TheEnv Catalog2 "trending" 2 0%nat)
    as [[cards|e] n'] eqn:Hrun; [|vm_compute in Hrun; discriminate].
  exists cards, n'. split; [reflexivity|].
  apply (proj1 (proj2 (proj2 (@home_spec ZFloat TheEnv Catalog2 "trending" 2 0%nat)))
           cards n' Hrun).
  lia.
Defined.

(** An id the catalog does not know: status 404 comes out as 502. *)
Lemma movie_details_route_spec_witness :
  @movie_details_route ZFloat TheEnv Catalog 999 0%nat =
    (Raise (HTTPException 502 "TMDB error 404"), 1%nat).
Proof.
  apply (proj1 (proj2 (proj2 (@movie_details_route_spec ZFloat TheEnv Catalog
                                999 0%nat)))
           {| status_code := 404; json := None |}).
  - vm_compute. reflexivity.
  - discriminate.
Defined.

(** "Solaris" is enriched with the first search result. *)
Lemma attach_tmdb_card_by_title_Some_witness :
  @attach_tmdb_card_by_title ZFloat TheEnv Catalog "Solaris" 0%nat =
    (Ok (Some {| TMDBMovieCard.tmdb_id := 593;
                 TMDBMovieCard.title := "Solaris";
                 TMDBMovieCard.poster_url := None;
                 TMDBMovieCard.release_date := None;
                 TMDBMovieCard.vote_average := None |}), 1%nat).
Proof.
  apply (proj2 (@attach_tmdb_card_by_title_Some ZFloat TheEnv Catalog
                  "Solaris" 0%nat 1%nat _)).
  exists (movie 593 "Solaris"). split.
  - vm_compute. reflexivity.
  - repeat split; reflexivity.
Defined.

(** Of "Heat" and "HEAT" the later one gives the row. *)
Lemma load_pickles_resolves_witness :
  @get_local_idx_by_title ZFloat StableNumpy
    (load_pickles (N := StableNumpy) titles colliding matrix) LcsDifflib "HEAT" =
    Ok 1.
Proof.
  apply (@load_pickles_resolves ZFloat StableNumpy LcsDifflib titles colliding
           matrix [("Heat", 0)] [("Alien", 2)] "HEAT" 1).
  - reflexivity.
  - intros k' v' [Hk|[]]. inversion Hk; subst. vm_compute. discriminate.
Defined.

(** Before start-up the resolver raises [TypeError]; on the loaded index
    "Avngers" is no key and resolves through a close key. *)
Lemma get_local_idx_by_title_outcomes_witness :
  @get_local_idx_by_title ZFloat StableNumpy not_loaded LcsDifflib "Heat" =
    Raise TypeError /\
  exists key row,
    @get_local_idx_by_title ZFloat StableNumpy Loaded LcsDifflib "Avngers" =
      Ok row /\
    Dict.get (build_title_to_idx_map indices) key = Some row /\
    ~ In (_norm_title "Avngers") (Dict.keys (build_title_to_idx_map indices)) /\
    ratio_ge key (_norm_title "Avngers") = true.
Proof.
  split.
  - apply (proj1 (@get_local_idx_by_title_outcomes ZFloat StableNumpy not_loaded
                    LcsDifflib LcsDifflib_laws "Heat")).
    reflexivity.
  - destruct (proj2 (@get_local_idx_by_title_outcomes ZFloat StableNumpy Loaded
                       LcsDifflib LcsDifflib_laws "Avngers")
                (build_title_to_idx_map indices) eq_refl)
      as [(key & row & Hrow & Hget & [Hkey|[Hnew Hratio]])|[H404 _]].
    + exfalso. subst key. vm_compute in Hget. discriminate.
    + exists key, row. auto.
    + vm_compute in H404. discriminate.
Defined.

(** The two movies closest to The Avengers among the other three. *)
Lemma tfidf_recommend_titles_top_witness :
  exists qv rows,
    getrow (N := StableNumpy) matrix 0 = Ok qv /\
    @tfidf_recommend_titles ZFloat StableNumpy Loaded LcsDifflib "The Avengers" 2 =
      Ok (map (entry titles (scores_of (N := StableNumpy) matrix qv)) rows) /\
    List.length rows = 2%nat.
Proof.
  destruct (@tfidf_recommend_titles_top ZFloat StableNumpy Loaded LcsDifflib
              (argsort_by_laws false) ZFloat_laws "The Avengers" 2 0 matrix titles)
    as (qv & rows & Hqv & Hout & Hlen & _).
  - vm_compute. reflexivity.
  - reflexivity.
  - reflexivity.
  - reflexivity.
  - simpl. lia.
  - lia.
  - exists qv, rows. repeat split; assumption.
Defined.

(** The ranker passes on the resolver's 404. *)
Lemma tfidf_recommend_titles_errors_witness :
  @tfidf_recommend_titles ZFloat StableNumpy Loaded LcsDifflib "Solaris" 5 =
    Raise (HTTPException 404 "Title not in dataset").
Proof.
  apply (proj1 (@tfidf_recommend_titles_errors ZFloat StableNumpy Loaded
                  LcsDifflib "Solaris" 5)).
  vm_compute. reflexivity.
Defined.

(** "Avngers": search, details, three enrichment calls and one discovery
    call. *)
Lemma search_bundle_calls_witness :
  exists b, search2 "Avngers" 3 2 0%nat = (Ok b, 6%nat).
Proof.
  destruct (search2 "Avngers" 3 2 0%nat) as [[b|e] n'] eqn:Hrun;
    [|vm_compute in Hrun; discriminate].
  exists b. f_equal.
  rewrite (proj2 (@search_bundle_calls ZFloat StableNumpy Loaded TheEnv Catalog
                    LcsDifflib "Avngers" 3 2 0%nat) b n' Hrun).
  vm_compute in Hrun. inversion Hrun; subst. vm_compute. reflexivity.
Defined.

(** "Avngers" has three local hits: they make the similarity list. *)
Lemma search_bundle_local_hits_witness :
  exists b n',
    search2 "Avngers" 3 2 0%nat = (Ok b, n') /\
    List.length (SearchBundleResponse.tfidf_recommendations b) =
      List.length
        (@local_similarity ZFloat StableNumpy Loaded LcsDifflib
           (TMDBMovieDetails.title (SearchBundleResponse.movie_details b)) 3).
Proof.
  destruct (search2 "Avngers" 3 2 0%nat) as [[b|e] n'] eqn:Hrun;
    [|vm_compute in Hrun; discriminate].
  exists b, n'. split; [reflexivity|].
  apply (@search_bundle_local_hits ZFloat StableNumpy Loaded TheEnv Catalog
           LcsDifflib "Avngers" 3 2 0%nat n' b Hrun).
  vm_compute in Hrun. inversion Hrun; subst. vm_compute. discriminate.
Defined.

(** "Solaris" has genre cards, so its similarity list is not empty. *)
Lemma search_bundle_never_empty_handed_witness :
  exists b n',
    search2 "Solaris" 2 12 0%nat = (Ok b, n') /\
    SearchBundleResponse.tfidf_recommendations b <> [].
Proof.
  destruct (search2 "Solaris" 2 12 0%nat) as [[b|e] n'] eqn:Hrun;
    [|vm_compute in Hrun; discriminate].
  exists b, n'. split; [reflexivity|]. intros Hnil.
  apply (@search_bundle_never_empty_handed ZFloat StableNumpy Loaded TheEnv
           Catalog LcsDifflib "Solaris" 2 12 0%nat n' b Hrun) in Hnil; [|lia].
  destruct Hnil as [_ Hg].
  vm_compute in Hrun. inversion Hrun; subst. discriminate.
Defined.

(** Discovery answers 500: the bundle for "Avngers" is lost, hits and
    all. *)
Lemma search_bundle_genre_failure_witness :
  @search_bundle ZFloat StableNumpy Loaded TheEnv Catalog2 LcsDifflib
    "Avngers" 3 2 0%nat =
    (Raise (HTTPException 502 "TMDB error 500"), 6%nat).
Proof.
  destruct (@tmdb_movie_details ZFloat TheEnv Catalog2 (Some 24428) 1%nat)
    as [[details|e] n2] eqn:Hd; [|vm_compute in Hd; discriminate].
  apply (@search_bundle_genre_failure ZFloat StableNumpy Loaded TheEnv Catalog2
           LcsDifflib "Avngers" 3 2 0%nat 1%nat n2 6%nat
           (movie 24428 "The Avengers") (Some 24428) details).
  - vm_compute. reflexivity.
  - reflexivity.
  - exact Hd.
  - vm_compute in Hd. inversion Hd; subst. vm_compute. reflexivity.
Defined.

(** The similarity grid of "Solaris" shows the first two genre cards. *)
Lemma tfidf_cards_of_bundle_witness :
  exists b n',
    search2 "Solaris" 2 12 0%nat = (Ok b, n') /\
    App.tfidf_cards
      (Some (map App.item_json (SearchBundleResponse.tfidf_recommendations b))) =
      map App.card_json
          (filter App.has_nonzero_id
                  (firstn 2 (SearchBundleResponse.genre_recommendations b))).
Proof.
  destruct (search2 "Solaris" 2 12 0%nat) as [[b|e] n'] eqn:Hrun;
    [|vm_compute in Hrun; discriminate].
  exists b, n'. split; [reflexivity|].
  apply (proj2 (@tfidf_cards_of_bundle ZFloat StableNumpy Loaded TheEnv Catalog
                  LcsDifflib "Solaris" 2 12 0%nat n' b Hrun)).
  - vm_compute in Hrun. inversion Hrun; subst. vm_compute. reflexivity.
  - vm_compute in Hrun. inversion Hrun; subst. vm_compute. discriminate.
  - lia.
Defined.
End MoreOnScenario.

(** ** The front end: the grid of posters *)

Section GridLayout.
Context {UI : Streamlit}.
Variable key_prefix : string.
Variable c : nat.
Hypothesis c_positive : (1 <= c)%nat.

Lemma mod_in_row (q col : nat) : (col < c)%nat -> ((q * c + col) mod c = col)%nat.
Proof.
  intros Hcol. rewrite Nat.add_comm, Nat.Div0.mod_add.
  now apply Nat.mod_small.
Qed.

(** The rest of a row, from a column other than the first. *)
Lemma row_loop_by_position (left : nat) :
  forall (col q : nat) (rest : list App.card) (trace : list St.call),
    (1 <= col)%nat -> (col + left = c)%nat ->
    match Grid.row_loop key_prefix left col rest trace with
    | (inl e, trace') =>
        Grid.by_position key_prefix c (q * c + col) rest trace = (e, trace')
    | (inr rest', trace') =>
        (left <= List.length rest)%nat /\
        rest' = skipn left rest /\
        Grid.by_position key_prefix c (q * c + col) rest trace =
          Grid.by_position key_prefix c (S q * c) rest' trace'
    end.
Proof.
  induction left as [|left IH]; intros col q rest trace Hcol Hsum; simpl.
  - split; [lia|]. split; [reflexivity|].
    replace (q * c + col)%nat with (S q * c)%nat by lia. reflexivity.
  - destruct rest as [|m rest]; [reflexivity|].
    cbn [Grid.by_position].
    rewrite (mod_in_row q) by lia.
    replace (col =? 0)%nat with false by (symmetry; apply Nat.eqb_neq; lia).
    destruct (Grid.cell key_prefix col m trace) as [[e|] trace1]; [reflexivity|].
    specialize (IH (S col) q rest trace1 ltac:(lia) ltac:(lia)).
    replace (S (q * c + col)) with (q * c + S col)%nat by lia.
    destruct (Grid.row_loop key_prefix left (S col) rest trace1)
      as [[e|rest'] trace2]; [exact IH|].
    destruct IH as (Hlen & -> & Heq). simpl. repeat split; auto. lia.
Qed.

Lemma row_loop_cons (left col : nat) (m : App.card) (rest : list App.card)
    (trace : list St.call) :
  (1 <= left)%nat ->
  Grid.row_loop key_prefix left col (m :: rest) trace =
  match Grid.cell key_prefix col m trace with
  | (Some e, trace') => (inl e, trace')
  | (None, trace') => Grid.row_loop key_prefix (left - 1) (S col) rest trace'
  end.
Proof.
  destruct left as [|left]; [lia|]. intros _. simpl.
  now rewrite Nat.sub_0_r.
Qed.

Variable cols : Z.
Hypothesis cols_c : cols = Z.of_nat c.
Hypothesis columns_c : st_columns cols = Some c.

Lemma rows_loop_by_position (rows : nat) :
  forall (q : nat) (rest : list App.card) (trace : list St.call),
    (List.length rest <= rows * c)%nat ->
    (rows * c < List.length rest + c)%nat ->
    Grid.rows_loop key_prefix rows cols rest trace =
    Grid.by_position key_prefix c (q * c) rest trace.
Proof.
  induction rows as [|rows IH]; intros q rest trace Hle Hlt; simpl.
  - destruct rest; [reflexivity | simpl in Hle; lia].
  - rewrite columns_c.
    destruct rest as [|m rest]; [simpl in Hlt; lia|].
    rewrite row_loop_cons by assumption. cbn [Grid.by_position].
    rewrite Nat.Div0.mod_mul. simpl Nat.eqb. cbv iota.
    rewrite <- cols_c.
    destruct (Grid.cell key_prefix 0 m (trace ++ [St.columns cols]))
      as [[e|] trace1]; [reflexivity|].
    pose proof (@row_loop_by_position (c - 1) 1 q rest trace1
                  ltac:(lia) ltac:(lia)) as Hrow.
    replace (q * c + 1)%nat with (S (q * c)) in Hrow by lia.
    destruct (Grid.row_loop key_prefix (c - 1) 1 rest trace1)
      as [[e|rest'] trace2]; [now rewrite Hrow|].
    destruct Hrow as (Hlen & -> & ->).
    apply IH; rewrite length_skipn; simpl in *; nia.
Qed.
End GridLayout.

Section GridProperties.
Context {UI : Streamlit}.

Lemma poster_grid_by_position {UL : StreamlitLaws} (cards : list App.card)
    (cols : Z) (key_prefix : string) (trace : list St.call) :
  cards <> [] -> 1 <= cols ->
  Grid.poster_grid (Some cards) cols key_prefix trace =
  Grid.by_position key_prefix (Z.to_nat cols) 0 cards trace.
Proof.
  intros Hcards Hcols. unfold Grid.poster_grid.
  destruct cards as [|m cards]; [contradiction|].
  replace (cols =? 0) with false by lia.
  set (len := List.length (m :: cards)).
  set (rows := (Z.of_nat len + cols - 1) / cols).
  pose proof (Z.div_mod (Z.of_nat len + cols - 1) cols ltac:(lia)) as Hdiv.
  pose proof (Z.mod_pos_bound (Z.of_nat len + cols - 1) cols ltac:(lia)) as Hmod.
  fold rows in Hdiv.
  assert (Hrows : 0 <= rows) by (apply Z.div_pos; lia).
  apply (@rows_loop_by_position UI key_prefix (Z.to_nat cols) ltac:(lia) cols
           ltac:(lia) (@st_columns_positive _ _ cols Hcols) (Z.to_nat rows) 0).
  - fold len. apply Nat2Z.inj_le. rewrite Nat2Z.inj_mul, !Z2Nat.id by lia. nia.
  - fold len. apply Nat2Z.inj_lt.
    rewrite Nat2Z.inj_add, Nat2Z.inj_mul, !Z2Nat.id by lia. nia.
Qed.

(** *** Button keys *)

Lemma str_of_int_inj (a b : Z) : str_of_int a = str_of_int b -> a = b.
Proof.
  unfold str_of_int. intros H.
  assert (Hnil : forall z, Z.to_int z <> Decimal.Pos Decimal.Nil /\
                           Z.to_int z <> Decimal.Neg Decimal.Nil).
  { intros [|p|p]; simpl; split; try discriminate; intros [= Hp];
      now apply DecimalPos.Unsigned.to_uint_nonnil in Hp. }
  assert (Hint : Z.to_int a = Z.to_int b).
  { destruct (Hnil a) as [Ha1 Ha2]. destruct (Hnil b) as [Hb1 Hb2].
    pose proof (NilZero.isi _ Ha1 Ha2) as Ia.
    pose proof (NilZero.isi _ Hb1 Hb2) as Ib.
    rewrite H in Ia. congruence. }
  rewrite <- (DecimalZ.of_to a), <- (DecimalZ.of_to b). now rewrite Hint.
Qed.

Lemma append_inj (p s t : string) : (p ++ s = p ++ t)%string -> s = t.
Proof.
  induction p as [|c p IH]; simpl; [auto|]. intros [= H]. auto.
Qed.

Lemma button_key_inj (key_prefix : string) (a b : Z) :
  Grid.button_key key_prefix a = Grid.button_key key_prefix b -> a = b.
Proof.
  unfold Grid.button_key. intros H.
  apply append_inj, append_inj in H. now apply str_of_int_inj.
Qed.

Lemma NoDup_app_disjoint {A} (l1 l2 : list A) :
  NoDup (l1 ++ l2) -> forall a, In a l1 -> ~ In a l2.
Proof.
  induction l1 as [|x l1 IH]; simpl; intros Hnd a Hin Hin2; [contradiction|].
  inversion Hnd as [|? ? Hx Hnd']; subst. destruct Hin as [->|Hin].
  - apply Hx. apply in_or_app. now right.
  - now apply (IH Hnd' a).
Qed.

Lemma keys_app (a b : list St.call) :
  St.keys (a ++ b) = (St.keys a ++ St.keys b)%list.
Proof. unfold St.keys. apply flat_map_app. Qed.

Lemma st_button_used (trace : list St.call) (key : string) :
  In key (St.keys trace) -> st_button trace key = None.
Proof.
  intros Hin. unfold st_button.
  replace (existsb (String.eqb key) (St.keys trace)) with true; [reflexivity|].
  symmetry. apply existsb_exists. exists key. split; [exact Hin|].
  apply String.eqb_refl.
Qed.

Lemma st_button_fresh (trace : list St.call) (key : string) :
  ~ In key (St.keys trace) -> st_button trace key = Some (st_clicked key).
Proof.
  intros Hfresh. unfold st_button.
  destruct (existsb (String.eqb key) (St.keys trace)) eqn:Hex; [|reflexivity].
  apply existsb_exists in Hex. destruct Hex as (k & Hin & Heq).
  apply String.eqb_eq in Heq. now subst k.
Qed.

Lemma ids_app (a b : list App.card) :
  Grid.ids (a ++ b) = (Grid.ids a ++ Grid.ids b)%list.
Proof. unfold Grid.ids. apply flat_map_app. Qed.

Lemma keys_shown (key_prefix : string) (col : nat) (m : App.card) :
  St.keys (Grid.shown key_prefix col m) =
  map (Grid.button_key key_prefix) (Grid.ids [m]).
Proof.
  unfold Grid.shown, Grid.ids, App.int_truthy. simpl.
  rewrite keys_app.
  destruct (get (App.tmdb_id m)) as [tmdb_id|]; [|reflexivity].
  now destruct (negb (tmdb_id =? 0)).
Qed.

Lemma keys_layout (key_prefix : string) (c : nat) (cards : list App.card) :
  forall k,
    St.keys (Grid.layout key_prefix c k cards) =
    map (Grid.button_key key_prefix) (Grid.ids cards).
Proof.
  induction cards as [|m cards IH]; intros k; [reflexivity|].
  cbn [Grid.layout]. rewrite !keys_app, keys_shown, IH.
  change (m :: cards) with ([m] ++ cards)%list. rewrite ids_app, map_app.
  now destruct (k mod c =? 0)%nat.
Qed.

(** *** A card whose button is not clicked *)

Lemma cell_not_clicked (key_prefix : string) (col : nat) (m : App.card)
    (trace : list St.call) :
  (forall tmdb_id,
      In tmdb_id (Grid.ids [m]) ->
      ~ In (Grid.button_key key_prefix tmdb_id) (St.keys trace) /\
      st_clicked (Grid.button_key key_prefix tmdb_id) = false) ->
  Grid.cell key_prefix col m trace =
    (None, (trace ++ Grid.shown key_prefix col m)%list).
Proof.
  intros Hquiet. unfold Grid.cell, Grid.shown, App.int_truthy.
  unfold Grid.ids in Hquiet. simpl in Hquiet.
  destruct (get (App.tmdb_id m)) as [tmdb_id|].
  - destruct (negb (tmdb_id =? 0)).
    + destruct (Hquiet tmdb_id) as [Hfresh Hclick]; [now left|].
      rewrite st_button_fresh, Hclick
        by (rewrite keys_app, app_nil_r; exact Hfresh).
      now rewrite <- !app_assoc.
    + now rewrite <- !app_assoc.
  - now rewrite <- !app_assoc.
Qed.

(** The cards [before] are shown and the walk goes on with [rest], when
    the ids of [before] are distinct, their keys new to the run, and
    their buttons not clicked. *)
Lemma by_position_app (key_prefix : string) (c : nat)
    (before rest : list App.card) :
  forall (k : nat) (trace : list St.call),
    NoDup (Grid.ids before) ->
    (forall tmdb_id,
        In tmdb_id (Grid.ids before) ->
        ~ In (Grid.button_key key_prefix tmdb_id) (St.keys trace) /\
        st_clicked (Grid.button_key key_prefix tmdb_id) = false) ->
    Grid.by_position key_prefix c k (before ++ rest) trace =
    Grid.by_position key_prefix c (k + List.length before) rest
                     (trace ++ Grid.layout key_prefix c k before)%list.
Proof.
  induction before as [|m before IH]; intros k trace Hnodup Hquiet.
  - simpl. now rewrite Nat.add_0_r, app_nil_r.
  - change (m :: before) with ([m] ++ before)%list in Hnodup, Hquiet.
    rewrite ids_app in Hnodup, Hquiet.
    pose proof (NoDup_app_disjoint _ _ Hnodup) as Hdisj.
    apply NoDup_app_remove_l in Hnodup.
    cbn [app Grid.by_position Grid.layout List.length].
    rewrite cell_not_clicked.
    2:{ intros id Hid. destruct (Hquiet id) as [Hfresh Hclick].
        - apply in_or_app. now left.
        - split; [|exact Hclick].
          destruct (k mod c =? 0)%nat; [|exact Hfresh].
          now rewrite keys_app, app_nil_r. }
    rewrite IH.
    + replace (S k + List.length before)%nat
        with (k + S (List.length before))%nat by lia.
      f_equal. destruct (k mod c =? 0)%nat; cbn [app];
        repeat rewrite <- app_assoc; reflexivity.
    + exact Hnodup.
    + intros id Hid. destruct (Hquiet id) as [Hfresh Hclick].
      { apply in_or_app. now right. }
      split; [|exact Hclick].
      rewrite keys_app, keys_shown. intros Hin.
      apply in_app_or in Hin. destruct Hin as [Hin|Hin].
      * destruct (k mod c =? 0)%nat; [|now apply Hfresh].
        rewrite keys_app, app_nil_r in Hin. now apply Hfresh.
      * apply in_map_iff in Hin. destruct Hin as (id' & Hkey & Hin').
        apply button_key_inj in Hkey. subst id'.
        apply (Hdisj id); [exact Hin'|exact Hid].
Qed.

Lemma by_position_not_clicked (key_prefix : string) (c : nat)
    (cards : list App.card) (k : nat) (trace : list St.call) :
  NoDup (Grid.ids cards) ->
  (forall tmdb_id,
      In tmdb_id (Grid.ids cards) ->
      ~ In (Grid.button_key key_prefix tmdb_id) (St.keys trace) /\
      st_clicked (Grid.button_key key_prefix tmdb_id) = false) ->
  Grid.by_position key_prefix c k cards trace =
    (St.returned, (trace ++ Grid.layout key_prefix c k cards)%list).
Proof.
  intros Hnodup Hquiet.
  rewrite <- (app_nil_r cards) at 1.
  now rewrite by_position_app.
Qed.

Lemma titles_shown_shown (key_prefix : string) (col : nat) (m : App.card) :
  Grid.titles_shown (Grid.shown key_prefix col m) = [Grid.title_text m].
Proof.
  unfold Grid.shown, Grid.titles_shown, Grid.poster_body. simpl.
  rewrite flat_map_app. simpl.
  assert (Hposter : forall b : St.body,
             (b = St.no_poster \/ exists p, b = St.poster_img p) ->
             match b with St.movie_title t => [t] | _ => [] end = []).
  { intros b [->|[p ->]]; reflexivity. }
  rewrite Hposter.
  - destruct (App.int_truthy _); [|reflexivity].
    now destruct (get (App.tmdb_id m)).
  - destruct (get (App.poster_url m)) as [p|]; auto.
    destruct (str_truthy p); eauto.
Qed.

Lemma titles_shown_layout (key_prefix : string) (c : nat)
    (cards : list App.card) (k : nat) :
  Grid.titles_shown (Grid.layout key_prefix c k cards) =
  map Grid.title_text cards.
Proof.
  revert k. induction cards as [|m cards IH]; intros k; cbn [Grid.layout map];
    [reflexivity|].
  unfold Grid.titles_shown in *. rewrite !flat_map_app.
  fold (Grid.titles_shown (Grid.shown key_prefix (k mod c) m)).
  rewrite titles_shown_shown, IH.
  now destruct (k mod c =? 0)%nat.
Qed.

Lemma rows_opened_shown (key_prefix : string) (col : nat) (m : App.card) :
  Grid.rows_opened (Grid.shown key_prefix col m) = 0%nat.
Proof.
  unfold Grid.shown, Grid.rows_opened. simpl.
  rewrite filter_app. simpl.
  destruct (App.int_truthy _); [|reflexivity].
  now destruct (get (App.tmdb_id m)).
Qed.

Lemma ceil_div_step (c k : nat) :
  (1 <= c)%nat ->
  ((k + c - 1) / c = k / c + (if k mod c =? 0 then 0 else 1))%nat.
Proof.
  intros Hc. pose proof (Nat.div_mod_eq k c) as Hk.
  pose proof (Nat.mod_upper_bound k c ltac:(lia)) as Hr.
  destruct (Nat.eqb_spec (k mod c) 0) as [H0|H0].
  - symmetry. apply (Nat.div_unique _ _ _ (c - 1)); [lia|]. nia.
  - symmetry. apply (Nat.div_unique _ _ _ (k mod c - 1)); [lia|]. nia.
Qed.

Lemma rows_opened_layout (key_prefix : string) (c : nat)
    (cards : list App.card) (k : nat) :
  (1 <= c)%nat ->
  (Grid.rows_opened (Grid.layout key_prefix c k cards) + (k + c - 1) / c =
   (k + List.length cards + c - 1) / c)%nat.
Proof.
  intros Hc. revert k. induction cards as [|m cards IH]; intros k;
    cbn [Grid.layout List.length].
  - now rewrite Nat.add_0_r.
  - unfold Grid.rows_opened in *. rewrite !filter_app, !length_app.
    fold (Grid.rows_opened (Grid.shown key_prefix (k mod c) m)).
    rewrite rows_opened_shown.
    specialize (IH (S k)).
    replace (S k + List.length cards)%nat with (k + S (List.length cards))%nat
      in IH by lia.
    rewrite <- IH.
    replace (S k + c - 1)%nat with (k + 1 * c)%nat by lia.
    rewrite Nat.div_add by lia.
    rewrite (ceil_div_step k Hc).
    destruct (k mod c =? 0)%nat; simpl; lia.
Qed.

(** *** The first card whose button stops the walk *)

Lemma titles_shown_app (a b : list St.call) :
  Grid.titles_shown (a ++ b) = (Grid.titles_shown a ++ Grid.titles_shown b)%list.
Proof. unfold Grid.titles_shown. apply flat_map_app. Qed.

(** The calls that show a card up to its button. *)
Lemma titles_shown_card (col : nat) (m : App.card) (calls : list St.call) :
  Grid.titles_shown
    ([St.markdown col St.card_open;
      St.markdown col (Grid.poster_body m);
      St.markdown col (St.movie_title (Grid.title_text m))] ++ calls) =
  Grid.title_text m :: Grid.titles_shown calls.
Proof.
  unfold Grid.titles_shown, Grid.poster_body. simpl.
  destruct (get (App.poster_url m)) as [p|]; [destruct (str_truthy p)|];
    reflexivity.
Qed.

(** The walk reaches the card [m] after the cards [before]; what the
    button of [m] answers decides how it ends. *)
Lemma by_position_button (key_prefix : string) (c : nat)
    (before : list App.card) (m : App.card) (after : list App.card)
    (tmdb_id : Z) (k : nat) (trace : list St.call) :
  NoDup (Grid.ids before) ->
  (forall id,
      In id (Grid.ids before) ->
      ~ In (Grid.button_key key_prefix id) (St.keys trace) /\
      st_clicked (Grid.button_key key_prefix id) = false) ->
  get (App.tmdb_id m) = Some tmdb_id -> tmdb_id <> 0 ->
  exists calls,
    Grid.titles_shown calls = map Grid.title_text (before ++ [m]) /\
    St.keys (trace ++ calls) =
      (St.keys trace ++ map (Grid.button_key key_prefix) (Grid.ids before))%list /\
    Grid.by_position key_prefix c k (before ++ m :: after) trace =
      match st_button (trace ++ calls) (Grid.button_key key_prefix tmdb_id) with
      | None => (St.raised_StreamlitAPIException, (trace ++ calls)%list)
      | Some true =>
          (Grid.goto_details tmdb_id,
           (trace ++ calls
            ++ [St.button ((k + List.length before) mod c) "View details"
                          (Grid.button_key key_prefix tmdb_id)])%list)
      | Some false =>
          Grid.by_position key_prefix c (S (k + List.length before)) after
            (trace ++ calls
             ++ [St.button ((k + List.length before) mod c) "View details"
                           (Grid.button_key key_prefix tmdb_id);
                 St.markdown ((k + List.length before) mod c) St.card_close])%list
      end.
Proof.
  intros Hnodup Hquiet Hid Hnz.
  set (k' := (k + List.length before)%nat).
  exists (Grid.layout key_prefix c k before
          ++ (if (k' mod c =? 0)%nat then [St.columns (Z.of_nat c)] else [])
          ++ [St.markdown (k' mod c) St.card_open;
              St.markdown (k' mod c) (Grid.poster_body m);
              St.markdown (k' mod c) (St.movie_title (Grid.title_text m))])%list.
  split; [|split].
  - rewrite titles_shown_app, titles_shown_layout, titles_shown_app, map_app.
    f_equal. rewrite <- (app_nil_r [_; _; _]), titles_shown_card.
    now destruct (k' mod c =? 0)%nat.
  - rewrite !keys_app, keys_layout. f_equal.
    destruct (k' mod c =? 0)%nat; simpl; now rewrite app_nil_r.
  - rewrite by_position_app by assumption. fold k'.
    cbn [Grid.by_position]. unfold Grid.cell. rewrite Hid.
    replace (negb (tmdb_id =? 0)) with true
      by (symmetry; apply negb_true_iff, Z.eqb_neq; exact Hnz).
    assert (Htrace :
              (((if (k' mod c =? 0)%nat
                 then ((trace ++ Grid.layout key_prefix c k before)
                       ++ [St.columns (Z.of_nat c)])%list
                 else (trace ++ Grid.layout key_prefix c k before)%list)
                ++ [St.markdown (k' mod c) St.card_open;
                    St.markdown (k' mod c) (Grid.poster_body m);
                    St.markdown (k' mod c) (St.movie_title (Grid.title_text m))])
               =
               trace
               ++ Grid.layout key_prefix c k before
               ++ (if (k' mod c =? 0)%nat then [St.columns (Z.of_nat c)] else [])
               ++ [St.markdown (k' mod c) St.card_open;
                   St.markdown (k' mod c) (Grid.poster_body m);
                   St.markdown (k' mod c) (St.movie_title (Grid.title_text m))])%list).
    { destruct (k' mod c =? 0)%nat; cbn [app];
        repeat rewrite <- app_assoc; reflexivity. }
    rewrite Htrace.
    destruct (st_button _ (Grid.button_key key_prefix tmdb_id)) as [[|]|];
      repeat rewrite <- app_assoc; reflexivity.
Qed.

(** X16. [poster_grid] without cards ([None] or the empty list) only says
    "No movies found."; with cards and [cols = 0] it raises
    [ZeroDivisionError].  With cards and [cols >= 1], each card with a
    [tmdb_id] other than 0 gets a button whose key is made of the prefix
    and the id, and Streamlit refuses a key it has seen in the run.  When
    those ids are pairwise distinct, their keys new to the run and no
    button clicked, the grid returns after showing every card once, in
    order: the card at position [k] in column [k mod cols], a row of
    columns being opened before each card whose position is a multiple of
    [cols]; so it opens [ceil(len(cards) / cols)] rows, none of them
    empty.  When a card repeats the id of an earlier card (or its key is
    already used in the run), the grid raises at that card, having shown
    the cards before it and the poster and title of that one. *)
Theorem poster_grid_layout {UL : StreamlitLaws} (cards : option (list App.card))
    (cols : Z) (key_prefix : string) (trace : list St.call) :
  (or_empty cards = [] ->
   Grid.poster_grid cards cols key_prefix trace =
     (St.returned, (trace ++ [St.info "No movies found."])%list)) /\
  (or_empty cards <> [] -> cols = 0 ->
   Grid.poster_grid cards cols key_prefix trace =
     (St.raised_ZeroDivisionError, trace)) /\
  (or_empty cards <> [] -> 1 <= cols ->
   NoDup (Grid.ids (or_empty cards)) ->
   (forall tmdb_id,
       In tmdb_id (Grid.ids (or_empty cards)) ->
       ~ In (Grid.button_key key_prefix tmdb_id) (St.keys trace)) ->
   (forall tmdb_id,
       In tmdb_id (Grid.ids (or_empty cards)) ->
       st_clicked (Grid.button_key key_prefix tmdb_id) = false) ->
   exists calls,
     Grid.poster_grid cards cols key_prefix trace =
       (St.returned, (trace ++ calls)%list) /\
     calls = Grid.layout key_prefix (Z.to_nat cols) 0 (or_empty cards) /\
     Grid.titles_shown calls = map Grid.title_text (or_empty cards) /\
     Z.of_nat (Grid.rows_opened calls) =
       (Z.of_nat (List.length (or_empty cards)) + cols - 1) / cols) /\
  (forall before m after tmdb_id,
      or_empty cards = (before ++ m :: after)%list -> 1 <= cols ->
      NoDup (Grid.ids before) ->
      (forall id,
          In id (Grid.ids before) ->
          ~ In (Grid.button_key key_prefix id) (St.keys trace)) ->
      (forall id,
          In id (Grid.ids before) ->
          st_clicked (Grid.button_key key_prefix id) = false) ->
      get (App.tmdb_id m) = Some tmdb_id -> tmdb_id <> 0 ->
      In tmdb_id (Grid.ids before) \/
      In (Grid.button_key key_prefix tmdb_id) (St.keys trace) ->
      exists calls,
        Grid.poster_grid cards cols key_prefix trace =
          (St.raised_StreamlitAPIException, (trace ++ calls)%list) /\
        Grid.titles_shown calls = map Grid.title_text (before ++ [m])).
Proof.
  split; [|split; [|split]].
  - destruct cards as [[|m l]|]; simpl; intros H; try reflexivity. discriminate.
  - destruct cards as [[|m l]|]; simpl; intros H ->; try contradiction.
    reflexivity.
  - destruct cards as [cards|]; cbn [or_empty]; [|contradiction].
    intros Hcards Hcols Hnodup Hfresh Hquiet.
    exists (Grid.layout key_prefix (Z.to_nat cols) 0 cards).
    split; [|split; [reflexivity|split]].
    + rewrite poster_grid_by_position by assumption.
      apply by_position_not_clicked; auto.
    + apply titles_shown_layout.
    + pose proof (@rows_opened_layout key_prefix (Z.to_nat cols) cards 0
                    ltac:(lia)) as Hrows.
      rewrite Nat.div_small in Hrows by lia.
      rewrite Nat.add_0_r in Hrows. simpl in Hrows. rewrite Hrows.
      rewrite Nat2Z.inj_div.
      replace (Z.of_nat (List.length cards + Z.to_nat cols - 1))
        with (Z.of_nat (List.length cards) + cols - 1) by lia.
      now rewrite Z2Nat.id by lia.
  - intros before m after tmdb_id Hsplit Hcols Hnodup Hfresh Hquiet Hid Hnz Hdup.
    destruct cards as [cards|]; cbn [or_empty] in Hsplit;
      [subst cards|now destruct before].
    rewrite poster_grid_by_position; [|now destruct before|assumption].
    destruct (@by_position_button key_prefix (Z.to_nat cols) before m after
                tmdb_id 0 trace Hnodup) as (calls & Htitles & Hkeys & Hrun);
      auto.
    exists calls. split; [|exact Htitles].
    rewrite Hrun, st_button_used; [reflexivity|].
    rewrite Hkeys. apply in_or_app. destruct Hdup as [Hdup|Hdup]; [right|now left].
    now apply in_map.
Qed.

(** X17. A click on "View details": when the button of a card with a
    [tmdb_id] other than 0 is clicked, no button of an earlier card is,
    and the ids of the cards up to it are pairwise distinct, with keys
    new to the run, [poster_grid] (with [cols >= 1]) stops at that card
    and asks for a rerun with the view "details" and that [tmdb_id]
    selected; the cards up to it have been shown, those after it have
    not. *)
Theorem poster_grid_click {UL : StreamlitLaws} (before : list App.card)
    (m : App.card) (after : list App.card) (tmdb_id : Z) (cols : Z)
    (key_prefix : string) (trace : list St.call) :
  1 <= cols ->
  get (App.tmdb_id m) = Some tmdb_id -> tmdb_id <> 0 ->
  NoDup (Grid.ids (before ++ [m])) ->
  (forall id,
      In id (Grid.ids (before ++ [m])) ->
      ~ In (Grid.button_key key_prefix id) (St.keys trace)) ->
  (forall id,
      In id (Grid.ids before) ->
      st_clicked (Grid.button_key key_prefix id) = false) ->
  st_clicked (Grid.button_key key_prefix tmdb_id) = true ->
  exists calls,
    Grid.poster_grid (Some (before ++ m :: after)%list) cols key_prefix trace =
      (St.rerun {| St.view := "details"; St.selected_tmdb_id := Some tmdb_id |},
       (trace ++ calls)%list) /\
    Grid.titles_shown calls = map Grid.title_text (before ++ [m]).
Proof.
  intros Hcols Hid Hnz Hnodup Hfresh Hquiet Hclick.
  assert (Hm : Grid.ids [m] = [tmdb_id]).
  { unfold Grid.ids. simpl. rewrite Hid.
    replace (negb (tmdb_id =? 0)) with true
      by (symmetry; apply negb_true_iff, Z.eqb_neq; exact Hnz).
    reflexivity. }
  rewrite ids_app, Hm in Hnodup, Hfresh.
  rewrite poster_grid_by_position; [|now destruct before|assumption].
  destruct (@by_position_button key_prefix (Z.to_nat cols) before m after
              tmdb_id 0 trace) as (calls & Htitles & Hkeys & Hrun); auto.
  { now apply NoDup_app_remove_r in Hnodup. }
  { intros id Hin. split; [|now apply Hquiet].
    apply Hfresh, in_or_app. now left. }
  rewrite Hrun, st_button_fresh, Hclick.
  - eexists. split; [reflexivity|].
    rewrite titles_shown_app, Htitles. simpl. now rewrite app_nil_r.
  - rewrite Hkeys. intros Hin. apply in_app_or in Hin.
    destruct Hin as [Hin|Hin].
    + apply (Hfresh tmdb_id); [|exact Hin]. apply in_or_app. right. now left.
    + apply in_map_iff in Hin. destruct Hin as (id & Hkey & Hin).
      apply button_key_inj in Hkey. subst id.
      apply (NoDup_app_disjoint _ _ Hnodup tmdb_id Hin). now left.
Qed.
End GridProperties.

(** ** The grid on the concrete setting *)

Module ScenarioUIFacts.
Import ScenarioUI.

Lemma Quiet_laws : @StreamlitLaws Quiet.
Proof.
  constructor. simpl. intros n Hn. unfold columns_of.
  now replace (1 <=? n) with true by lia.
Qed.

Lemma Click_laws (clicked : string) : @StreamlitLaws (Click clicked).
Proof.
  constructor. simpl. intros n Hn. unfold columns_of.
  now replace (1 <=? n) with true by lia.
Qed.
End ScenarioUIFacts.

Section GridOnScenario.
Import Scenario ScenarioUI ScenarioUIFacts.

(** Three cards in two columns: two rows are opened.  Three cards of
    which the third repeats the id of the first: Streamlit raises at the
    third. *)
Lemma poster_grid_layout_witness :
  (exists calls,
      Grid.poster_grid (UI := Quiet) (Some three) 2 "home" [] =
        (St.returned, calls) /\
      Grid.titles_shown calls = ["Mad Max"; "John Wick"; "Die Hard"] /\
      Grid.rows_opened calls = 2%nat) /\
  (exists calls,
      Grid.poster_grid (UI := Quiet) (Some repeated) 2 "home" [] =
        (St.raised_StreamlitAPIException, calls) /\
      Grid.titles_shown calls = ["Heat"; "John Wick"; "Heat (1995)"]).
Proof.
  split.
  - destruct (proj1 (proj2 (proj2 (@poster_grid_layout Quiet Quiet_laws
                                     (Some three) 2 "home" []))))
      as (calls & Hrun & Hcalls & Htitles & Hrows).
    + discriminate.
    + lia.
    + vm_compute. repeat constructor; simpl; intuition discriminate.
    + intros id _ [].
    + reflexivity.
    + exists calls. split; [exact Hrun|]. split; [exact Htitles|].
      apply Nat2Z.inj. rewrite Hrows. reflexivity.
  - apply (proj2 (proj2 (proj2 (@poster_grid_layout Quiet Quiet_laws
                                  (Some repeated) 2 "home" [])))
             [card 7 "Heat"; card 2 "John Wick"] (card 7 "Heat (1995)") [] 7).
    + reflexivity.
    + lia.
    + vm_compute. repeat constructor; simpl; intuition discriminate.
    + intros id _ [].
    + reflexivity.
    + reflexivity.
    + discriminate.
    + left. vm_compute. now left.
Defined.

(** The button of the second card is clicked: the third is not shown. *)
Lemma poster_grid_click_witness :
  exists calls,
    Grid.poster_grid (UI := Click "genre_2") (Some three) 2 "genre" [] =
      (St.rerun {| St.view := "details"; St.selected_tmdb_id := Some 2 |},
       calls) /\
    Grid.titles_shown calls = ["Mad Max"; "John Wick"].
Proof.
  apply (@poster_grid_click (Click "genre_2") (Click_laws "genre_2")
           [card 1 "Mad Max"] (card 2 "John Wick") [card 3 "Die Hard"] 2 2
           "genre" []).
  - lia.
  - reflexivity.
  - discriminate.
  - vm_compute. repeat constructor; simpl; intuition discriminate.
  - intros id _ [].
  - intros id [<-|[]]. vm_compute. reflexivity.
  - vm_compute. reflexivity.
Defined.
End GridOnScenario.
